(** * TitanicPredictor: the CSV reader, the rule-based scorer and the
      dataset summary of [src/components/TitanicPredictor.tsx]

    JavaScript numbers are IEEE 754 binary64 values; they are embedded as
    Rocq's primitive [float], so that every sum, comparison and clamp below
    rounds exactly as it does in the browser.  Strings are embedded as
    [string] (one [ascii] per code unit, code units below 256). *)

From Stdlib Require Import Floats ZArith QArith Qabs Bool List String Ascii Lia.
From Stdlib Require Import Permutation.
Import ListNotations.
Close Scope Q_scope.

Set Warnings "-inexact-float".

(** ** JavaScript values used by the component *)

Module Js.

(** A property of a [Partial<Passenger>]: missing ([undefined]), [null]
    (the parser stores it for an empty [Age] or [Fare]) or a value. *)
Inductive prop (A : Type) : Type :=
| Undefined : prop A
| Null : prop A
| Val : A -> prop A.
Arguments Undefined {A}.
Arguments Null {A}.
Arguments Val {A} _.

(** ToBoolean on a number: [0], [-0] and [NaN] are falsy. *)
Definition truthy (x : float) : bool :=
  negb (PrimFloat.eqb x 0 || PrimFloat.is_nan x).

(** [p || d] for a numeric property [p] and a numeric default [d]. *)
Definition or_num (p : prop float) (d : float) : float :=
  match p with
  | Val x => if truthy x then x else d
  | Undefined | Null => d
  end.

(** [p === k] for a numeric property and a numeric literal. *)
Definition num_is (p : prop float) (k : float) : bool :=
  match p with
  | Val x => PrimFloat.eqb x k
  | Undefined | Null => false
  end.

(** [p === s] for a string property and a string literal. *)
Definition str_is (p : prop string) (s : string) : bool :=
  match p with
  | Val x => String.eqb x s
  | Undefined | Null => false
  end.

Definition lt (x y : float) : bool := PrimFloat.ltb x y.
Definition gt (x y : float) : bool := PrimFloat.ltb y x.
Definition ge (x y : float) : bool := PrimFloat.leb y x.

Definition is_neg_zero (x : float) : bool :=
  PrimFloat.eqb x 0 && PrimFloat.get_sign x.

(** [Math.min] and [Math.max] on two arguments: [NaN] is contagious and
    [-0] is smaller than [+0]. *)
Definition Math_min (x y : float) : float :=
  if (PrimFloat.is_nan x || PrimFloat.is_nan y)%bool then PrimFloat.nan
  else if PrimFloat.ltb x y then x
  else if PrimFloat.ltb y x then y
  else if is_neg_zero x then x else y.

Definition Math_max (x y : float) : float :=
  if (PrimFloat.is_nan x || PrimFloat.is_nan y)%bool then PrimFloat.nan
  else if PrimFloat.ltb x y then y
  else if PrimFloat.ltb y x then x
  else if is_neg_zero x then y else x.

End Js.
Import Js.

(** ** Data model *)

(** [Partial<Passenger>]: the twelve columns, each possibly missing. *)
Record Passenger : Type := mkPassenger {
  PassengerId : prop float;
  Survived : prop float;
  Pclass : prop float;
  Name : prop string;
  Sex : prop string;
  Age : prop float;
  SibSp : prop float;
  Parch : prop float;
  Ticket : prop string;
  Fare : prop float;
  Cabin : prop string;
  Embarked : prop string
}.

(** The object literal [{}]. *)
Definition empty_passenger : Passenger :=
  mkPassenger Undefined Undefined Undefined Undefined Undefined Undefined
              Undefined Undefined Undefined Undefined Undefined Undefined.

Record PredictionInput : Type := mkInput {
  pclass : float;
  sex : string;
  age : float;
  sibsp : float;
  parch : float;
  fare : float;
  embarked : string
}.

Record Prediction : Type := mkPrediction {
  probability : float;
  survived : bool
}.

Record ModelStats : Type := mkStats {
  accuracy : float;
  totalPassengers : nat;
  survivedCount : nat;
  deathCount : nat
}.

(** ** The scorer, [predictSurvival] *)

Open Scope float_scope.

(** Each rule of [predictSurvival] updates the running [score]. *)

Definition sex_rule (passenger : Passenger) (score : float) : float :=
  if str_is (Sex passenger) "female" then score + 0.35 else score - 0.25.

Definition class_rule (passenger : Passenger) (score : float) : float :=
  if num_is (Pclass passenger) 1 then score + 0.2
  else if num_is (Pclass passenger) 2 then score + 0.05
  else score - 0.15.

Definition age_rule (passenger : Passenger) (score : float) : float :=
  let age := or_num (Age passenger) 30 in
  if lt age 16 then score + 0.1
  else if gt age 60 then score - 0.1
  else score.

Definition familySize (passenger : Passenger) : float :=
  or_num (SibSp passenger) 0 + or_num (Parch passenger) 0.

Definition family_rule (passenger : Passenger) (score : float) : float :=
  let familySize := familySize passenger in
  if (gt familySize 0 && lt familySize 4)%bool then score + 0.05
  else if ge familySize 4 then score - 0.1
  else score.

Definition fare_rule (passenger : Passenger) (score : float) : float :=
  let fare := or_num (Fare passenger) 15 in
  if gt fare 50 then score + 0.1
  else if lt fare 10 then score - 0.05
  else score.

(** The running score after the five rules, before the clamp. *)
Definition running_score (passenger : Passenger) : float :=
  let score := 0.5 in
  let score := sex_rule passenger score in
  let score := class_rule passenger score in
  let score := age_rule passenger score in
  let score := family_rule passenger score in
  let score := fare_rule passenger score in
  score.

Definition clamp01 (score : float) : float :=
  Math_max 0 (Math_min 1 score).

(** The clamp leaves a score alone when it already lies in [0,1]. *)
Definition unclamped (score : float) : bool :=
  ((0 <=? score) && (score <=? 1))%bool.

(** A numeric property that holds [NaN]. *)
Definition is_NaN (p : prop float) : bool :=
  match p with
  | Val x => PrimFloat.is_nan x
  | Undefined | Null => false
  end.

Definition predictSurvival (passenger : Passenger) : Prediction :=
  let probability := clamp01 (running_score passenger) in
  mkPrediction probability (gt probability 0.5).

(** [handlePredict]: the form's input is copied into a partial passenger
    and scored; the result is what [setPrediction] stores. *)
Definition passenger_of_input (input : PredictionInput) : Passenger :=
  mkPassenger Undefined Undefined (Val (pclass input)) Undefined
              (Val (sex input)) (Val (age input)) (Val (sibsp input))
              (Val (parch input)) Undefined (Val (fare input)) Undefined
              (Val (embarked input)).

Definition handlePredict (input : PredictionInput) : Prediction :=
  predictSurvival (passenger_of_input input).

(** The form's initial state. *)
Definition default_input : PredictionInput :=
  mkInput 3 "male" 30 0 0 15 "S".

(** Property assignment, [passenger.X = v]. *)
Definition set_PassengerId v p := mkPassenger v (Survived p) (Pclass p) (Name p) (Sex p) (Age p) (SibSp p) (Parch p) (Ticket p) (Fare p) (Cabin p) (Embarked p).
Definition set_Survived v p := mkPassenger (PassengerId p) v (Pclass p) (Name p) (Sex p) (Age p) (SibSp p) (Parch p) (Ticket p) (Fare p) (Cabin p) (Embarked p).
Definition set_Pclass v p := mkPassenger (PassengerId p) (Survived p) v (Name p) (Sex p) (Age p) (SibSp p) (Parch p) (Ticket p) (Fare p) (Cabin p) (Embarked p).
Definition set_Name v p := mkPassenger (PassengerId p) (Survived p) (Pclass p) v (Sex p) (Age p) (SibSp p) (Parch p) (Ticket p) (Fare p) (Cabin p) (Embarked p).
Definition set_Sex v p := mkPassenger (PassengerId p) (Survived p) (Pclass p) (Name p) v (Age p) (SibSp p) (Parch p) (Ticket p) (Fare p) (Cabin p) (Embarked p).
Definition set_Age v p := mkPassenger (PassengerId p) (Survived p) (Pclass p) (Name p) (Sex p) v (SibSp p) (Parch p) (Ticket p) (Fare p) (Cabin p) (Embarked p).
Definition set_SibSp v p := mkPassenger (PassengerId p) (Survived p) (Pclass p) (Name p) (Sex p) (Age p) v (Parch p) (Ticket p) (Fare p) (Cabin p) (Embarked p).
Definition set_Parch v p := mkPassenger (PassengerId p) (Survived p) (Pclass p) (Name p) (Sex p) (Age p) (SibSp p) v (Ticket p) (Fare p) (Cabin p) (Embarked p).
Definition set_Ticket v p := mkPassenger (PassengerId p) (Survived p) (Pclass p) (Name p) (Sex p) (Age p) (SibSp p) (Parch p) v (Fare p) (Cabin p) (Embarked p).
Definition set_Fare v p := mkPassenger (PassengerId p) (Survived p) (Pclass p) (Name p) (Sex p) (Age p) (SibSp p) (Parch p) (Ticket p) v (Cabin p) (Embarked p).
Definition set_Cabin v p := mkPassenger (PassengerId p) (Survived p) (Pclass p) (Name p) (Sex p) (Age p) (SibSp p) (Parch p) (Ticket p) (Fare p) v (Embarked p).
Definition set_Embarked v p := mkPassenger (PassengerId p) (Survived p) (Pclass p) (Name p) (Sex p) (Age p) (SibSp p) (Parch p) (Ticket p) (Fare p) (Cabin p) v.

Definition set_embarked (e : string) (input : PredictionInput) : PredictionInput :=
  mkInput (pclass input) (sex input) (age input) (sibsp input) (parch input)
          (fare input) e.

(** The exact rational value of a finite double (0 for the others); used
    only to state how far two doubles are apart. *)
Definition exact (x : float) : Q :=
  match Prim2SF x with
  | S754_finite s m e =>
      ((if s then -1 else 1) * (Zpos m # 1) * Qpower 2 e)%Q
  | _ => 0%Q
  end.

(** The exact increase of the returned probability from one passenger to
    another. *)
Definition increase (before after : Passenger) : Q :=
  (exact (probability (predictSurvival after))
   - exact (probability (predictSurvival before)))%Q.

Close Scope float_scope.

(** ** Strings *)

Open Scope string_scope.

Definition quote : ascii := "034"%char.
Definition comma : ascii := ","%char.
Definition newline : ascii := "010"%char.

(** White space and line terminators among the code units below 256:
    TAB, LF, VT, FF, CR, SP and NBSP. *)
Definition is_space (c : ascii) : bool :=
  let n := nat_of_ascii c in
  ((9 <=? n) && (n <=? 13) || (n =? 32) || (n =? 160))%nat.

(** [s.trim()] *)
Fixpoint trimStart (s : string) : string :=
  match s with
  | EmptyString => EmptyString
  | String c s' => if is_space c then trimStart s' else s
  end.

Fixpoint trimEnd (s : string) : string :=
  match s with
  | EmptyString => EmptyString
  | String c s' =>
      match trimEnd s' with
      | EmptyString => if is_space c then EmptyString else String c EmptyString
      | t => String c t
      end
  end.

Definition trim (s : string) : string := trimEnd (trimStart s).

(** [s.split(sep)] for a one-character separator: never empty. *)
Fixpoint split (sep : ascii) (s : string) : list string :=
  match s with
  | EmptyString => [EmptyString]
  | String c s' =>
      if Ascii.eqb c sep then EmptyString :: split sep s'
      else match split sep s' with
           | [] => [String c EmptyString]
           | field :: fields => String c field :: fields
           end
  end.

(** [lines.join(sep)], the inverse reading of [split]. *)
Fixpoint join (sep : ascii) (parts : list string) : string :=
  match parts with
  | [] => EmptyString
  | [s] => s
  | s :: rest => s ++ String sep (join sep rest)
  end.

(** [v.replace(/q/g, '')] where [q] is the double quote: every quote
    character is dropped. *)
Fixpoint remove_quotes (v : string) : string :=
  match v with
  | EmptyString => EmptyString
  | String c v' =>
      if Ascii.eqb c quote then remove_quotes v' else String c (remove_quotes v')
  end.

Definition contains (c : ascii) (s : string) : bool :=
  existsb (Ascii.eqb c) (list_ascii_of_string s).

(** ** The host's [parseInt] and [parseFloat]

    A reference model of the two built-ins, used to run the reader on
    concrete text; the properties of the reader below hold for any pair of
    functions in their place. *)

Module Host.

(** The double nearest to a nonzero integer. *)
Definition number_of_Z (z : Z) : float :=
  SF2Prim (binary_normalize prec emax z 0 false).

(** The double nearest to [n / d], for positive [n] and [d]: the quotient
    is taken with at least 64 significant bits and a sticky last bit, then
    rounded to nearest even. *)
Definition number_of_ratio (n d : Z) : float :=
  let k := Z.max 0 (66 + Z.log2 d - Z.log2 n)%Z in
  let q := ((n * 2 ^ k) / d)%Z in
  let sticky := if ((n * 2 ^ k) mod d =? 0)%Z then 0%Z else 1%Z in
  SF2Prim (binary_normalize prec emax (2 * q + sticky)%Z (- k - 1)%Z false).

Definition signed (negative : bool) (x : float) : float :=
  if negative then PrimFloat.opp x else x.

(** The value of a digit in the given radix, if it is one. *)
Definition digit_value (radix : Z) (c : ascii) : option Z :=
  let n := Z.of_nat (nat_of_ascii c) in
  let d := (if (48 <=? n) && (n <=? 57) then n - 48
            else if (97 <=? n) && (n <=? 122) then n - 87
            else if (65 <=? n) && (n <=? 90) then n - 55
            else 36)%Z in
  if (d <? radix)%Z then Some d else None.

(** The longest run of digits at the start of [s]: its value from [acc],
    the number of digits read, and what follows. *)
Fixpoint read_digits (radix : Z) (s : string) (acc : Z) (count : nat)
    : Z * nat * string :=
  match s with
  | EmptyString => (acc, count, s)
  | String c s' =>
      match digit_value radix c with
      | Some d => read_digits radix s' (acc * radix + d)%Z (S count)
      | None => (acc, count, s)
      end
  end.

Definition read_sign (s : string) : bool * string :=
  match s with
  | String "-" s' => (true, s')
  | String "+" s' => (false, s')
  | _ => (false, s)
  end.

(** [parseInt(s)] with no radix argument. *)
Definition parseInt (s : string) : float :=
  let '(negative, s) := read_sign (trimStart s) in
  let '(radix, s) :=
    match s with
    | String "0" (String "x" s') | String "0" (String "X" s') => (16%Z, s')
    | _ => (10%Z, s)
    end in
  let '(value, count, _) := read_digits radix s 0%Z 0%nat in
  match count with
  | O => PrimFloat.nan
  | S _ =>
      if (value =? 0)%Z then signed negative 0%float
      else signed negative (number_of_Z value)
  end.

(** The exponent part [e], [e+] or [e-] followed by digits, if there is
    one. *)
Definition read_exponent (s : string) : Z :=
  match s with
  | String "e" s' | String "E" s' =>
      let '(negative, s'') := read_sign s' in
      let '(value, count, _) := read_digits 10 s'' 0%Z 0%nat in
      match count with
      | O => 0%Z
      | S _ => if negative then (- value)%Z else value
      end
  | _ => 0%Z
  end.

(** [parseFloat(s)]: the longest decimal literal at the start of [s]. *)
Definition parseFloat (s : string) : float :=
  let '(negative, s) := read_sign (trimStart s) in
  if prefix "Infinity" s then signed negative PrimFloat.infinity
  else
    let '(int, int_count, s) := read_digits 10 s 0%Z 0%nat in
    let '(mantissa, frac_count, s) :=
      match s with
      | String "." s' => read_digits 10 s' int 0%nat
      | _ => (int, 0%nat, s)
      end in
    match (int_count + frac_count)%nat with
    | O => PrimFloat.nan
    | S _ =>
        let exponent := (read_exponent s - Z.of_nat frac_count)%Z in
        if (mantissa =? 0)%Z then signed negative 0%float
        else if (0 <=? exponent)%Z then
          signed negative (number_of_Z (mantissa * 10 ^ exponent))
        else
          signed negative (number_of_ratio mantissa (10 ^ (- exponent)))
    end.

End Host.

(** ** [parseCSVLine] *)

(** The three locals of the loop. *)
Record line_state : Type := mkLineState {
  result : list string;
  current : string;
  inQuotes : bool
}.

(** One iteration of the [for] loop on the character [char]. *)
Definition line_step (st : line_state) (char : ascii) : line_state :=
  if Ascii.eqb char quote then
    mkLineState (result st) (current st) (negb (inQuotes st))
  else if (Ascii.eqb char comma && negb (inQuotes st))%bool then
    mkLineState (result st ++ [current st]) EmptyString (inQuotes st)
  else
    mkLineState (result st) (current st ++ String char EmptyString) (inQuotes st).

Fixpoint line_loop (line : string) (st : line_state) : line_state :=
  match line with
  | EmptyString => st
  | String char rest => line_loop rest (line_step st char)
  end.

Definition parseCSVLine (line : string) : list string :=
  let st := line_loop line (mkLineState [] EmptyString false) in
  result st ++ [current st].

(** [values[index]?.replace(/q/g, '') || ''], with [q] the double quote:
    the quote-free text of the cell, or the empty string when the line has
    no such cell. *)
Definition cell (values : list string) (index : nat) : string :=
  match nth_error values index with
  | Some v => remove_quotes v
  | None => EmptyString
  end.

(** A field wrapped in double quotes, as a CSV writer emits it. *)
Definition quoted (field : string) : string :=
  String quote (field ++ String quote EmptyString).

(** A writer for the round trip: a field with an embedded comma is
    wrapped in quotes, any other field is written as it is, and the fields
    of a line are separated by commas. *)
Definition write_field (field : string) : string :=
  if contains comma field then quoted field else field.

Definition write_line (fields : list string) : string :=
  join comma (map write_field fields).

(** The number of quote characters of a text; the loop is outside quotes
    after a prefix with an even number of them. *)
Fixpoint quote_count (s : string) : nat :=
  match s with
  | EmptyString => 0
  | String c s' => if Ascii.eqb c quote then S (quote_count s') else quote_count s'
  end.

(** [no_separator q s]: read with the flag at [q], the text [s] has no
    comma outside quotes. *)
Fixpoint no_separator (q : bool) (s : string) : bool :=
  match s with
  | EmptyString => true
  | String c s' =>
      if Ascii.eqb c quote then no_separator (negb q) s'
      else if (Ascii.eqb c comma && negb q)%bool then false
      else no_separator q s'
  end.

(** Shapes of lines and of the text around them. *)
Definition all_space (s : string) : bool :=
  forallb is_space (list_ascii_of_string s).

Definition starts_nonspace (s : string) : bool :=
  match s with
  | EmptyString => false
  | String c _ => negb (is_space c)
  end.

Fixpoint ends_nonspace (s : string) : bool :=
  match s with
  | EmptyString => false
  | String c EmptyString => negb (is_space c)
  | String _ s' => ends_nonspace s'
  end.

(** ** [parseCSV] *)

Section Parser.

(** The host's [parseInt] and [parseFloat]; [parseCSV] is read for any
    such pair. *)
Variable parseInt parseFloat : string -> float.

(** The body of the [switch] on [header]: [passenger[header] = ...].
    A header that names no property of [Passenger] adds nothing that the
    interface can read. *)
Definition assign (passenger : Passenger) (header value : string) : Passenger :=
  let int := Val (or_num (Val (parseInt value)) 0) in
  let num := if String.eqb value EmptyString then Null else Val (parseFloat value) in
  if header =? "PassengerId" then set_PassengerId int passenger
  else if header =? "Survived" then set_Survived int passenger
  else if header =? "Pclass" then set_Pclass int passenger
  else if header =? "SibSp" then set_SibSp int passenger
  else if header =? "Parch" then set_Parch int passenger
  else if header =? "Age" then set_Age num passenger
  else if header =? "Fare" then set_Fare num passenger
  else if header =? "Name" then set_Name (Val value) passenger
  else if header =? "Sex" then set_Sex (Val value) passenger
  else if header =? "Ticket" then set_Ticket (Val value) passenger
  else if header =? "Cabin" then set_Cabin (Val value) passenger
  else if header =? "Embarked" then set_Embarked (Val value) passenger
  else passenger.

(** [headers.forEach((header, index) => ...)], from [index] on. *)
Fixpoint forEach_header (headers values : list string) (index : nat)
    (passenger : Passenger) : Passenger :=
  match headers with
  | [] => passenger
  | header :: rest =>
      forEach_header rest values (S index)
        (assign passenger header (cell values index))
  end.

(** The callback of [lines.slice(1).map]. *)
Definition parse_row (headers : list string) (line : string) : Passenger :=
  let values := parseCSVLine line in
  forEach_header headers values 0 empty_passenger.

Definition parseCSV (csvText : string) : list Passenger :=
  let lines := split newline (trim csvText) in
  let headers := split comma (hd EmptyString lines) in
  map (parse_row headers) (tl lines).

End Parser.

Close Scope string_scope.

(** ** [calculateModelStats] *)

(** A count as a JavaScript number (exact below 2^53). *)
Definition number_of_nat (n : nat) : float :=
  PrimFloat.of_uint63 (Uint63.of_Z (Z.of_nat n)).

(** The test of the [forEach] body: the verdict agrees with the label. *)
Definition agrees (passenger : Passenger) : bool :=
  let predicted := predictSurvival passenger in
  (survived predicted && num_is (Survived passenger) 1
   || negb (survived predicted) && num_is (Survived passenger) 0)%bool.

Definition correctPredictions (passengers : list Passenger) : nat :=
  fold_left (fun n passenger => if agrees passenger then S n else n)
            passengers 0%nat.

(** The value handed to [setModelStats]. *)
Definition calculateModelStats (passengers : list Passenger) : ModelStats :=
  let totalPassengers := List.length passengers in
  let survivedCount :=
    List.length (filter (fun p => num_is (Survived p) 1) passengers) in
  let deathCount := (totalPassengers - survivedCount)%nat in
  let accuracy :=
    (number_of_nat (correctPredictions passengers)
     / number_of_nat totalPassengers * 100)%float in
  mkStats accuracy totalPassengers survivedCount deathCount.

(** ** Sample inputs *)

(** A third-class man with no family aboard and a fare of 15. *)
Definition lone_man (a : prop float) : Passenger :=
  mkPassenger Undefined Undefined (Val 3%float) Undefined (Val "male"%string) a
              (Val 0%float) (Val 0%float) Undefined (Val 15%float) Undefined
              (Val "S"%string).

(** A first-class girl of 10 travelling with two relatives on a fare of 80. *)
Definition wealthy_girl : Passenger :=
  mkPassenger Undefined Undefined (Val 1%float) Undefined (Val "female"%string)
              (Val 10%float) (Val 1%float) (Val 1%float) Undefined
              (Val 80%float) Undefined (Val "C"%string).

(** A passenger of whom only the two family counts are known. *)
Definition family_of (s p : float) : Passenger :=
  set_Parch (Val p) (set_SibSp (Val s) empty_passenger).

(** A passenger whose numeric properties all hold [NaN]. *)
Definition all_NaN : Passenger :=
  mkPassenger Undefined Undefined (Val PrimFloat.nan) Undefined
              (Val "male"%string) (Val PrimFloat.nan) (Val PrimFloat.nan)
              (Val PrimFloat.nan) Undefined (Val PrimFloat.nan) Undefined
              Undefined.

(** A record on which the scorer is right and one on which it is wrong. *)
Definition sample_passengers : list Passenger :=
  [ set_Survived (Val 1%float) wealthy_girl;
    set_Survived (Val 1%float) (lone_man (Val 30%float)) ].

(** A header and two rows of the dataset's shape. *)
Definition sample_header : string :=
  "Survived,Pclass,Name,Sex,Age,SibSp,Parch,Fare,Embarked"%string.
Definition sample_rows : list string :=
  [ "0,3,Kelly Mr. James,male,34.5,0,0,7.8292,Q"%string;
    "1,1,Snyder Mrs. John,female,23,1,0,82.2667,S"%string ].

(** The file with these lines, ending in a line feed. *)
Definition sample_csv : string :=
  (join newline (sample_header :: sample_rows) ++ String newline EmptyString)%string.

(** ** Doubles as sign, mantissa and exponent

    The bounds on [accuracy] are read off the specification of binary64
    arithmetic on [spec_float]. *)

(** The double 100 = 7036874417766400 * 2^-46. *)
Definition SF_hundred : spec_float := S754_finite false 7036874417766400 (-46).

(** A shifted mantissa that lost no set bit. *)
Definition exact_record (mrs : shr_record) : Prop :=
  shr_r mrs = false /\ shr_s mrs = false.

(** ** What the page shows of a prediction *)

(** The width of the probability bar, in percent:
    [prediction.probability * 100]. *)
Definition bar_width (prediction : Prediction) : float :=
  (probability prediction * 100)%float.

(** The lines of the 'Key Factors' list, computed from the form's input. *)
Definition gender_factor (input : PredictionInput) : string :=
  if String.eqb (sex input) "female" then "Female (higher survival rate)"%string
  else "Male (lower survival rate)"%string.

Definition class_factor (input : PredictionInput) : string :=
  if PrimFloat.eqb (pclass input) 1 then "1st Class (highest survival)"%string
  else if PrimFloat.eqb (pclass input) 2 then "2nd Class (moderate survival)"%string
  else "3rd Class (lowest survival)"%string.

Definition age_factor (input : PredictionInput) : string :=
  if lt (age input) 16 then "Child (higher survival)"%string
  else if gt (age input) 60 then "Elderly (lower survival)"%string
  else "Adult"%string.

(** The family line: 'Traveling alone', or 'Family of' followed by the
    number [sibsp + parch + 1]. *)
Inductive family_label : Type :=
| Traveling_alone : family_label
| Family_of : float -> family_label.

Definition family_factor (input : PredictionInput) : family_label :=
  if PrimFloat.eqb (sibsp input + parch input) 0 then Traveling_alone
  else Family_of (sibsp input + parch input + 1)%float.

(** ** Reading a record back *)

(** The number of occurrences of a character in a text. *)
Fixpoint count_char (c : ascii) (s : string) : nat :=
  match s with
  | EmptyString => 0
  | String x s' => if Ascii.eqb x c then S (count_char c s') else count_char c s'
  end.

(** The property [passenger[header]] as the interface exposes it: a number
    for the numeric columns, a text for the others, [undefined] for a name
    that is no column. *)
Definition column (header : string) (passenger : Passenger)
    : prop float + prop string :=
  if (header =? "PassengerId")%string then inl (PassengerId passenger)
  else if (header =? "Survived")%string then inl (Survived passenger)
  else if (header =? "Pclass")%string then inl (Pclass passenger)
  else if (header =? "SibSp")%string then inl (SibSp passenger)
  else if (header =? "Parch")%string then inl (Parch passenger)
  else if (header =? "Age")%string then inl (Age passenger)
  else if (header =? "Fare")%string then inl (Fare passenger)
  else if (header =? "Name")%string then inr (Name passenger)
  else if (header =? "Sex")%string then inr (Sex passenger)
  else if (header =? "Ticket")%string then inr (Ticket passenger)
  else if (header =? "Cabin")%string then inr (Cabin passenger)
  else if (header =? "Embarked")%string then inr (Embarked passenger)
  else inr Undefined.

(** A numeric property that is missing or holds a number other than
    [NaN]; never [null]. *)
Definition plain_number (p : prop float) : bool :=
  match p with
  | Undefined => true
  | Null => false
  | Val x => negb (PrimFloat.is_nan x)
  end.

(** The five integer columns of a record. *)
Definition integer_columns (passenger : Passenger) : list (prop float) :=
  [PassengerId passenger; Survived passenger; Pclass passenger;
   SibSp passenger; Parch passenger].

(** A text of blank lines only. *)
Definition blank_text : string :=
  String " " (String newline (String newline (String " " EmptyString))).

(** ** The component's state *)

(** The four [useState] cells that carry data: [data], [modelStats],
    [prediction], [loading], and the form's [input]. *)
Record State : Type := mkState {
  data : list Passenger;
  modelStats : option ModelStats;
  prediction : option Prediction;
  loading : bool;
  input : PredictionInput
}.

(** The state of the first render. *)
Definition initial_state : State :=
  mkState [] None None true default_input.

(** What can happen to the page: the load of the dataset settles, with
    the text of the file or with a rejection; the button is clicked; one of
    the seven controls of the form changes to the text [value]. *)
Inductive event : Type :=
| Loaded (response : option string)
| Predict
| ChangePclass (value : string)
| ChangeSex (value : string)
| ChangeAge (value : string)
| ChangeFare (value : string)
| ChangeSibsp (value : string)
| ChangeParch (value : string)
| ChangeEmbarked (value : string).

Section Component.

Variable parseInt parseFloat : string -> float.

(** [loadData], once the fetch has settled: on success the text is parsed,
    stored and summarised; in both cases [loading] ends. *)
Definition loadData (response : option string) (st : State) : State :=
  match response with
  | Some csvText =>
      let parsedData := parseCSV parseInt parseFloat csvText in
      mkState parsedData (Some (calculateModelStats parsedData)) (prediction st)
              false (input st)
  | None => mkState (data st) (modelStats st) (prediction st) false (input st)
  end.

(** [setInput({...input, field: ...})] *)
Definition setInput (i : PredictionInput) (st : State) : State :=
  mkState (data st) (modelStats st) (prediction st) (loading st) i.

Definition step (st : State) (ev : event) : State :=
  let i := input st in
  match ev with
  | Loaded response => loadData response st
  | Predict =>
      mkState (data st) (modelStats st) (Some (handlePredict i)) (loading st) i
  | ChangePclass value =>
      setInput (mkInput (parseInt value) (sex i) (age i) (sibsp i) (parch i)
                        (fare i) (embarked i)) st
  | ChangeSex value =>
      setInput (mkInput (pclass i) value (age i) (sibsp i) (parch i)
                        (fare i) (embarked i)) st
  | ChangeAge value =>
      setInput (mkInput (pclass i) (sex i) (parseInt value) (sibsp i) (parch i)
                        (fare i) (embarked i)) st
  | ChangeFare value =>
      setInput (mkInput (pclass i) (sex i) (age i) (sibsp i) (parch i)
                        (parseFloat value) (embarked i)) st
  | ChangeSibsp value =>
      setInput (mkInput (pclass i) (sex i) (age i) (parseInt value) (parch i)
                        (fare i) (embarked i)) st
  | ChangeParch value =>
      setInput (mkInput (pclass i) (sex i) (age i) (sibsp i) (parseInt value)
                        (fare i) (embarked i)) st
  | ChangeEmbarked value =>
      setInput (mkInput (pclass i) (sex i) (age i) (sibsp i) (parch i)
                        (fare i) value) st
  end.

(** The state after a sequence of events. *)
Definition run (events : list event) (st : State) : State :=
  fold_left step events st.

End Component.

(** * Properties *)

(** ** The scorer *)

Open Scope float_scope.

(** Case analysis on every test the rules make. *)
Ltac unfold_rules :=
  unfold predictSurvival, running_score, fare_rule, family_rule, familySize,
    age_rule, class_rule, sex_rule;
  cbv zeta.

Ltac split_tests :=
  repeat match goal with
         | |- context [if ?b then _ else _] => destruct b
         end.

Lemma float_neq (x y : float) : PrimFloat.eqb x y <> PrimFloat.eqb y y -> x <> y.
Proof. intros H E. apply H. now rewrite E. Qed.

(** A double that is not equal to itself is the one [NaN] of [float]. *)
Lemma is_nan_eq (x : float) : PrimFloat.is_nan x = true -> x = PrimFloat.nan.
Proof.
  unfold PrimFloat.is_nan. rewrite FloatAxioms.eqb_spec. intros H.
  rewrite <- (SF2Prim_Prim2SF x).
  destruct (Prim2SF x) as [s|s| |s m e]; try reflexivity; exfalso;
    unfold SFeqb, SFcompare in H.
  - discriminate.
  - destruct s; discriminate.
  - rewrite Z.compare_refl, Pos.compare_cont_refl in H. destruct s; discriminate.
Qed.

Lemma or_num_NaN (p : prop float) (d : float) : is_NaN p = true -> or_num p d = d.
Proof.
  destruct p as [| |x]; try discriminate. simpl. intros H.
  now rewrite (is_nan_eq x H).
Qed.

Lemma or_num_zero (d : float) : or_num (Val 0) d = d.
Proof. reflexivity. Qed.

(** The age rule on a present, truthy age. *)
Lemma age_rule_present (p : Passenger) (a s : float) :
  Age p = Val a -> truthy a = true ->
  age_rule p s = if a <? 16 then s + 0.1 else if 60 <? a then s - 0.1 else s.
Proof. intros HA Ht. unfold age_rule, lt, gt. rewrite HA. simpl. now rewrite Ht. Qed.

(** The age rule on an absent age: 30 is in neither band. *)
Lemma age_rule_absent (p : Passenger) (s : float) :
  Age p = Undefined \/ Age p = Null -> age_rule p s = s.
Proof. intros [H|H]; unfold age_rule; rewrite H; reflexivity. Qed.

(** C1: for every passenger, also the empty object and one whose numeric
    properties are missing or [NaN], [predictSurvival] (a total function)
    returns a probability in [0,1], and the verdict is true exactly when
    the probability is strictly greater than 0.5. *)
Theorem predictSurvival_probability_in_unit_interval (passenger : Passenger) :
  (0 <=? probability (predictSurvival passenger)) = true /\
  (probability (predictSurvival passenger) <=? 1) = true /\
  survived (predictSurvival passenger)
  = (0.5 <? probability (predictSurvival passenger)).
Proof.
  unfold_rules. cbn [probability survived]. unfold gt.
  split_tests; vm_compute; auto.
Qed.

(** The two scenarios of the specification, and the empty object. *)
Example default_input_scenario :
  handlePredict default_input = mkPrediction 0.1 false.
Proof. reflexivity. Qed.

Example wealthy_girl_scenario :
  running_score wealthy_girl = 1.3000000000000003 /\
  predictSurvival wealthy_girl = mkPrediction 1 true.
Proof. split; reflexivity. Qed.

Example empty_passenger_scenario :
  predictSurvival empty_passenger = mkPrediction 0.1 false.
Proof. reflexivity. Qed.

(** C2: at a present age of 0 the scorer does not add the child
    adjustment: [passenger.Age || 30] reads the falsy 0 as a missing age, so
    a newborn is scored like a passenger of 30 (0.1, not 0.2), while an age
    of 1 does receive the adjustment. *)
Theorem age_zero_misses_child_adjustment :
  (forall s, age_rule (lone_man (Val 0)) s = s) /\
  predictSurvival (lone_man (Val 0)) = predictSurvival (lone_man (Val 30)) /\
  probability (predictSurvival (lone_man (Val 0))) = 0.1 /\
  (forall s, age_rule (lone_man (Val 1)) s = s + 0.1) /\
  probability (predictSurvival (lone_man (Val 1))) = 0.2.
Proof. repeat split; reflexivity. Qed.

(** C3 fails as stated: for the wealthy girl the running score 1.3 is
    clamped to 1, so turning her into a man lowers the probability by 0.3
    only, and moving her to third class by 0.05 only; neither increase is
    0.60 or 0.35, even up to the rounding of the sums. *)
Lemma clamped_increase_is_smaller :
  let male := set_Sex (Val "male"%string) wealthy_girl in
  let female := set_Sex (Val "female"%string) wealthy_girl in
  let third := set_Pclass (Val 3) wealthy_girl in
  let first := set_Pclass (Val 1) wealthy_girl in
  probability (predictSurvival female) = 1 /\
  probability (predictSurvival male) = 0.70000000000000007 /\
  (increase male female <= 31 # 100)%Q /\
  ~ (Qabs (increase male female - (6 # 10)) <= 1 # 2 ^ 52)%Q /\
  probability (predictSurvival first) = 1 /\
  probability (predictSurvival third) = 0.94999999999999996 /\
  (increase third first <= 6 # 100)%Q /\
  ~ (Qabs (increase third first - (35 # 100)) <= 1 # 2 ^ 52)%Q.
Proof.
  repeat apply conj; try reflexivity;
    try (apply Qle_bool_imp_le; vm_compute; reflexivity);
    intros H; apply Qle_bool_iff in H; vm_compute in H; discriminate H.
Qed.

(** C3, amended: with every other attribute fixed, changing sex from male
    to female, and class from 3 to 1, strictly increases the probability.
    When neither of the two running scores is clamped the increase is 0.60,
    respectively 0.35, to within 2^-52 (the sums are rounded doubles); when
    one of them is clamped to 0 or 1 the increase is smaller: at most 0.55,
    respectively 0.30, to within 2^-52. *)
Theorem sex_and_class_strictly_increase (passenger : Passenger) :
  let male := set_Sex (Val "male"%string) passenger in
  let female := set_Sex (Val "female"%string) passenger in
  let third := set_Pclass (Val 3) passenger in
  let first := set_Pclass (Val 1) passenger in
  (probability (predictSurvival male) <? probability (predictSurvival female)) = true /\
  (probability (predictSurvival third) <? probability (predictSurvival first)) = true /\
  (unclamped (running_score male) = true ->
   unclamped (running_score female) = true ->
   (Qabs (increase male female - (6 # 10)) <= 1 # 2 ^ 52)%Q) /\
  (unclamped (running_score third) = true ->
   unclamped (running_score first) = true ->
   (Qabs (increase third first - (35 # 100)) <= 1 # 2 ^ 52)%Q) /\
  (unclamped (running_score male) = false \/
   unclamped (running_score female) = false ->
   (increase male female <= (55 # 100) + (1 # 2 ^ 52))%Q) /\
  (unclamped (running_score third) = false \/
   unclamped (running_score first) = false ->
   (increase third first <= (30 # 100) + (1 # 2 ^ 52))%Q).
Proof.
  intros male female third first. subst male female third first.
  unfold increase. unfold_rules.
  cbn [probability Sex Pclass Age SibSp Parch Fare set_Sex set_Pclass].
  change (str_is (Val "male"%string) "female") with false.
  change (str_is (Val "female"%string) "female") with true.
  change (num_is (Val 3) 1) with false.
  change (num_is (Val 3) 2) with false.
  change (num_is (Val 1) 1) with true.
  cbv iota.
  repeat apply conj; split_tests;
    try (vm_compute; reflexivity);
    try (intros H1 H2; try (vm_compute in H1; discriminate H1);
         try (vm_compute in H2; discriminate H2);
         apply Qle_bool_imp_le; vm_compute; reflexivity);
    intros H; vm_compute in H;
    try (destruct H as [H | H]; discriminate H);
    apply Qle_bool_imp_le; vm_compute; reflexivity.
Qed.

Lemma sex_and_class_strictly_increase_witness :
  let male := set_Sex (Val "male"%string) (lone_man (Val 30)) in
  let female := set_Sex (Val "female"%string) (lone_man (Val 30)) in
  let third := set_Pclass (Val 3) (lone_man (Val 30)) in
  let first := set_Pclass (Val 1) (lone_man (Val 30)) in
  let rich_man := set_Sex (Val "male"%string) wealthy_girl in
  let rich_woman := set_Sex (Val "female"%string) wealthy_girl in
  let poor_girl := set_Pclass (Val 3) wealthy_girl in
  let rich_girl := set_Pclass (Val 1) wealthy_girl in
  (unclamped (running_score male) = true /\
   unclamped (running_score female) = true /\
   (Qabs (increase male female - (6 # 10)) <= 1 # 2 ^ 52)%Q) /\
  (unclamped (running_score third) = true /\
   unclamped (running_score first) = true /\
   (Qabs (increase third first - (35 # 100)) <= 1 # 2 ^ 52)%Q) /\
  (unclamped (running_score rich_woman) = false /\
   (increase rich_man rich_woman <= (55 # 100) + (1 # 2 ^ 52))%Q) /\
  (unclamped (running_score rich_girl) = false /\
   (increase poor_girl rich_girl <= (30 # 100) + (1 # 2 ^ 52))%Q).
Proof.
  destruct (sex_and_class_strictly_increase (lone_man (Val 30)))
    as (_ & _ & Hsex & Hclass & _ & _).
  destruct (sex_and_class_strictly_increase wealthy_girl)
    as (_ & _ & _ & _ & Hsex' & Hclass').
  exact (conj (conj eq_refl (conj eq_refl (Hsex eq_refl eq_refl)))
          (conj (conj eq_refl (conj eq_refl (Hclass eq_refl eq_refl)))
             (conj (conj eq_refl (Hsex' (or_intror eq_refl)))
                (conj eq_refl (Hclass' (or_intror eq_refl)))))).
Defined.

(** C4 fails as stated: with a [NaN] sibling/spouse count and one parent
    or child aboard (and the other way round) the family rule still adds
    0.05, and a [NaN] class takes the last branch of the class rule, which
    subtracts 0.15. *)
Lemma NaN_count_does_not_skip_the_family_rule :
  is_NaN (SibSp (family_of nan 1)) = true /\
  family_rule (family_of nan 1) 0.5 = 0.5 + 0.05 /\
  family_rule (family_of nan 1) 0.5 <> 0.5 /\
  family_rule (family_of 1 nan) 0.5 <> 0.5 /\
  class_rule (set_Pclass (Val nan) empty_passenger) 0.5 <> 0.5.
Proof.
  repeat split; try reflexivity; apply float_neq; vm_compute; discriminate.
Qed.

(** C4, amended: a [NaN] field is read as a missing one.  A [NaN] age or
    fare is replaced by 30 or 15, so the age or fare rule leaves the score
    unchanged; a [NaN] sibling/spouse or parent/child count is replaced by
    0, so the family rule is computed from the other count alone and leaves
    the score unchanged when both counts are [NaN]; a [NaN] class is scored
    by the last branch of the class rule, -0.15. *)
Theorem NaN_field_is_read_as_missing (passenger : Passenger) (score : float) :
  (is_NaN (Age passenger) = true -> age_rule passenger score = score) /\
  (is_NaN (Fare passenger) = true -> fare_rule passenger score = score) /\
  (is_NaN (SibSp passenger) = true ->
   family_rule passenger score
   = family_rule (set_SibSp (Val 0) passenger) score) /\
  (is_NaN (Parch passenger) = true ->
   family_rule passenger score
   = family_rule (set_Parch (Val 0) passenger) score) /\
  (is_NaN (SibSp passenger) = true -> is_NaN (Parch passenger) = true ->
   family_rule passenger score = score) /\
  (is_NaN (Pclass passenger) = true ->
   class_rule passenger score = score - 0.15).
Proof.
  repeat split.
  - intros H. unfold age_rule. now rewrite (or_num_NaN _ _ H).
  - intros H. unfold fare_rule. now rewrite (or_num_NaN _ _ H).
  - intros H. unfold family_rule, familySize. cbn [SibSp Parch set_SibSp].
    now rewrite (or_num_NaN _ _ H), or_num_zero.
  - intros H. unfold family_rule, familySize. cbn [SibSp Parch set_Parch].
    now rewrite (or_num_NaN _ _ H), or_num_zero.
  - intros H1 H2. unfold family_rule, familySize.
    now rewrite (or_num_NaN _ _ H1), (or_num_NaN _ _ H2).
  - intros H. unfold class_rule. destruct (Pclass passenger) as [| |x];
      try discriminate.
    simpl in H. rewrite (is_nan_eq x H). reflexivity.
Qed.

Lemma NaN_field_is_read_as_missing_witness :
  age_rule all_NaN 0.5 = 0.5 /\
  fare_rule all_NaN 0.5 = 0.5 /\
  family_rule all_NaN 0.5 = family_rule (set_SibSp (Val 0) all_NaN) 0.5 /\
  family_rule all_NaN 0.5 = family_rule (set_Parch (Val 0) all_NaN) 0.5 /\
  family_rule all_NaN 0.5 = 0.5 /\
  class_rule all_NaN 0.5 = 0.5 - 0.15.
Proof.
  destruct (NaN_field_is_read_as_missing all_NaN 0.5)
    as (Hage & Hfare & Hsib & Hpar & Hboth & Hclass).
  exact (conj (Hage eq_refl) (conj (Hfare eq_refl) (conj (Hsib eq_refl)
           (conj (Hpar eq_refl) (conj (Hboth eq_refl eq_refl) (Hclass eq_refl)))))).
Defined.

(** C9: the port of embarkation does not enter the score: replacing it,
    in a passenger or in the form's input, changes neither the probability
    nor the verdict. *)
Theorem embarked_does_not_affect_score :
  (forall (passenger : Passenger) (port : prop string),
     predictSurvival (set_Embarked port passenger) = predictSurvival passenger) /\
  (forall (input : PredictionInput) (port : string),
     handlePredict (set_embarked port input) = handlePredict input).
Proof. split; intros; reflexivity. Qed.

(** C10: the scorer does not tell a zero from a missing value.  An age of
    0 is scored as a missing age (30 is substituted and the child
    adjustment is not applied), and a fare of 0 as a missing fare (15 is
    substituted and the low-fare penalty is not applied). *)
Theorem zero_is_scored_as_absent (passenger : Passenger) :
  predictSurvival (set_Age (Val 0) passenger)
  = predictSurvival (set_Age Undefined passenger) /\
  predictSurvival (set_Age (Val 0) passenger)
  = predictSurvival (set_Age Null passenger) /\
  (forall score, age_rule (set_Age (Val 0) passenger) score = score) /\
  predictSurvival (set_Fare (Val 0) passenger)
  = predictSurvival (set_Fare Undefined passenger) /\
  predictSurvival (set_Fare (Val 0) passenger)
  = predictSurvival (set_Fare Null passenger) /\
  (forall score, fare_rule (set_Fare (Val 0) passenger) score = score).
Proof. repeat split; reflexivity. Qed.

Close Scope float_scope.

(** ** The line splitter *)

Open Scope string_scope.

Lemma append_empty_r (s : string) : s ++ EmptyString = s.
Proof. induction s as [|c s IH]; simpl; [reflexivity | now rewrite IH]. Qed.

Lemma append_assoc (a b c : string) : (a ++ b) ++ c = a ++ (b ++ c).
Proof. induction a as [|x a IH]; simpl; [reflexivity | now rewrite IH]. Qed.

Lemma line_loop_app (a b : string) (st : line_state) :
  line_loop (a ++ b) st = line_loop b (line_loop a st).
Proof. revert st. induction a as [|c a IH]; intros st; simpl; [reflexivity | apply IH]. Qed.

(** Over a stretch without separator the loop only accumulates: quotes
    toggle the flag, every other character is appended to [current]. *)
Lemma line_loop_no_separator (b : string) (st : line_state) :
  no_separator (inQuotes st) b = true ->
  line_loop b st
  = mkLineState (result st) (current st ++ remove_quotes b)
                (xorb (inQuotes st) (Nat.odd (quote_count b))).
Proof.
  revert st. induction b as [|c b IH]; intros [res cur q]; simpl; intros H.
  - now rewrite append_empty_r, xorb_false_r.
  - unfold line_step; simpl. destruct (Ascii.eqb c quote) eqn:Eq.
    + rewrite IH by exact H. simpl. f_equal.
      rewrite Nat.odd_succ, <- Nat.negb_odd. now destruct q, (Nat.odd (quote_count b)).
    + destruct (Ascii.eqb c comma && negb q)%bool; [discriminate |].
      rewrite IH by exact H. simpl. f_equal. now rewrite append_assoc.
Qed.

Lemma inQuotes_line_loop (a : string) (st : line_state) :
  inQuotes (line_loop a st) = xorb (inQuotes st) (Nat.odd (quote_count a)).
Proof.
  revert st. induction a as [|c a IH]; intros [res cur q]; simpl.
  - now rewrite xorb_false_r.
  - rewrite IH. unfold line_step; simpl. destruct (Ascii.eqb c quote); simpl.
    + rewrite Nat.odd_succ, <- Nat.negb_odd. now destruct q, (Nat.odd (quote_count a)).
    + now destruct (Ascii.eqb c comma && negb q)%bool.
Qed.

(** The line ends one field after its last comma outside quotes. *)
Lemma parseCSVLine_last_separator (a b : string) :
  Nat.even (quote_count a) = true -> no_separator false b = true ->
  parseCSVLine (a ++ String comma b)
  = (parseCSVLine a ++ [remove_quotes b])%list.
Proof.
  intros Ha Hb. unfold parseCSVLine. rewrite line_loop_app. simpl.
  set (st := line_loop a _).
  assert (Hq : inQuotes st = false).
  { unfold st. rewrite inQuotes_line_loop. simpl.
    now rewrite <- Nat.negb_even, Ha. }
  unfold line_step. change (Ascii.eqb comma quote) with false.
  rewrite Hq. simpl. rewrite line_loop_no_separator by exact Hb. reflexivity.
Qed.

Lemma parseCSVLine_no_separator (line : string) :
  no_separator false line = true -> parseCSVLine line = [remove_quotes line].
Proof.
  intros H. unfold parseCSVLine. now rewrite line_loop_no_separator.
Qed.

(** Every line either has no comma outside quotes or splits at its last
    one. *)
Lemma last_separator_exists (line : string) (q : bool) :
  no_separator q line = true \/
  exists a b, line = a ++ String comma b /\
              xorb q (Nat.odd (quote_count a)) = false /\
              no_separator false b = true.
Proof.
  revert q. induction line as [|c line IH]; intros q; [now left |].
  simpl. destruct (Ascii.eqb c quote) eqn:Eq.
  - destruct (IH (negb q)) as [H | (a & b & -> & Hq & Hb)]; [now left | right].
    exists (String c a), b. simpl. rewrite Eq. repeat split; trivial.
    rewrite Nat.odd_succ, <- Nat.negb_odd.
    now destruct q, (Nat.odd (quote_count a)).
  - destruct (IH q) as [H | (a & b & -> & Hq & Hb)].
    + destruct (Ascii.eqb c comma && negb q)%bool eqn:Ec; [right | now left].
      apply andb_prop in Ec as [Ec Hq]. apply Ascii.eqb_eq in Ec. subst c.
      exists EmptyString, line. destruct q; [discriminate |]. now repeat split.
    + right. exists (String c a), b. simpl. rewrite Eq. now repeat split.
Qed.

(** C7: [parseCSVLine] flushes [current] when the line ends, whatever the
    state of the inside-quotes flag: it always returns at least one field,
    and its last field is the text after the last comma outside quotes (the
    whole line when there is none), quote characters dropped, also when
    that text has an odd number of quotes. *)
Theorem parseCSVLine_flushes_last_field (line : string) :
  (1 <= List.length (parseCSVLine line))%nat /\
  last (parseCSVLine line) EmptyString
  = current (line_loop line (mkLineState [] EmptyString false)) /\
  ((no_separator false line = true /\
    parseCSVLine line = [remove_quotes line]) \/
   (exists a b, line = a ++ String comma b /\
                Nat.even (quote_count a) = true /\
                no_separator false b = true /\
                parseCSVLine line = (parseCSVLine a ++ [remove_quotes b])%list)).
Proof.
  repeat split.
  - unfold parseCSVLine. rewrite length_app. simpl. lia.
  - unfold parseCSVLine. now rewrite last_last.
  - destruct (last_separator_exists line false) as [H | (a & b & -> & Hq & Hb)].
    + left. split; [exact H | now apply parseCSVLine_no_separator].
    + right. exists a, b. simpl in Hq.
      assert (Ha : Nat.even (quote_count a) = true)
        by now rewrite <- Nat.negb_odd, Hq.
      repeat split; trivial. now apply parseCSVLine_last_separator.
Qed.

(** ** Round trip of written fields *)

Lemma contains_cons (c x : ascii) (s : string) :
  contains c (String x s) = (Ascii.eqb x c || contains c s)%bool.
Proof. unfold contains. simpl. now rewrite Ascii.eqb_sym. Qed.

Lemma remove_quotes_quote_free (s : string) :
  contains quote s = false -> remove_quotes s = s.
Proof.
  induction s as [|c s IH]; [reflexivity |].
  rewrite contains_cons. intros H. apply orb_false_elim in H as [Hc Hs].
  simpl. rewrite Hc. now rewrite IH.
Qed.

Lemma quote_count_quote_free (s : string) :
  contains quote s = false -> quote_count s = 0%nat.
Proof.
  induction s as [|c s IH]; [reflexivity |].
  rewrite contains_cons. intros H. apply orb_false_elim in H as [Hc Hs].
  simpl. rewrite Hc. now apply IH.
Qed.

(** Inside quotes a quote-free text has no separator, whatever its commas. *)
Lemma no_separator_inside_quotes (s : string) :
  contains quote s = false -> no_separator true s = true.
Proof.
  induction s as [|c s IH]; [reflexivity |].
  rewrite contains_cons. intros H. apply orb_false_elim in H as [Hc Hs].
  simpl. rewrite Hc, andb_false_r. now apply IH.
Qed.

Lemma no_separator_plain (s : string) :
  contains quote s = false -> contains comma s = false ->
  no_separator false s = true.
Proof.
  induction s as [|c s IH]; [reflexivity |].
  rewrite !contains_cons. intros H1 H2.
  apply orb_false_elim in H1 as [Hq Hs1]. apply orb_false_elim in H2 as [Hc Hs2].
  simpl. rewrite Hq, Hc. now apply IH.
Qed.

(** Reading one written field appends its text to [current]. *)
Lemma line_loop_write_field (f : string) (st : line_state) :
  contains quote f = false -> inQuotes st = false ->
  line_loop (write_field f) st
  = mkLineState (result st) (current st ++ f) false.
Proof.
  intros Hf Hq. destruct st as [res cur q]. simpl in Hq. subst q.
  unfold write_field. destruct (contains comma f) eqn:Hc.
  - unfold quoted. cbn [line_loop]. rewrite line_loop_app.
    unfold line_step. change (Ascii.eqb quote quote) with true.
    cbn [result current inQuotes negb].
    rewrite (line_loop_no_separator f) by (now apply no_separator_inside_quotes).
    cbn [result current inQuotes line_loop]. unfold line_step.
    change (Ascii.eqb quote quote) with true. cbn [result current inQuotes].
    rewrite remove_quotes_quote_free, quote_count_quote_free by assumption.
    reflexivity.
  - rewrite line_loop_no_separator by (now apply no_separator_plain).
    cbn [result current inQuotes].
    now rewrite remove_quotes_quote_free, quote_count_quote_free by assumption.
Qed.

Lemma write_line_cons (f g : string) (rest : list string) :
  write_line (f :: g :: rest)
  = write_field f ++ String comma (write_line (g :: rest)).
Proof. reflexivity. Qed.

Lemma line_loop_write_line (fields : list string) (f : string) (st : line_state) :
  Forall (fun x => contains quote x = false) (f :: fields) ->
  inQuotes st = false ->
  let st' := line_loop (write_line (f :: fields)) st in
  (result st' ++ [current st'])%list
  = (result st ++ (current st ++ f)%string :: fields)%list.
Proof.
  revert f st. induction fields as [|g rest IH]; intros f st HF Hq.
  - unfold write_line. cbn [map join].
    rewrite line_loop_write_field; [reflexivity | now inversion HF | exact Hq].
  - inversion HF as [|? ? Hf HF']; subst.
    rewrite write_line_cons.
    cbv zeta. rewrite line_loop_app, line_loop_write_field by assumption.
    cbn [line_loop]. unfold line_step.
    change (Ascii.eqb comma quote) with false.
    change (Ascii.eqb comma comma) with true. cbn [result current inQuotes negb andb].
    specialize (IH g (mkLineState (result st ++ [current st ++ f]) EmptyString false) HF' eq_refl).
    cbv zeta in IH. rewrite IH. cbn [result current append].
    now rewrite <- app_assoc.
Qed.

Lemma parseCSVLine_write_line (fields : list string) :
  fields <> [] -> Forall (fun x => contains quote x = false) fields ->
  parseCSVLine (write_line fields) = fields.
Proof.
  destruct fields as [|f fields]; [congruence | intros _ HF].
  unfold parseCSVLine.
  now rewrite (line_loop_write_line fields f (mkLineState [] EmptyString false) HF eq_refl).
Qed.

(** C5: a quote-free field with an embedded comma is written wrapped in
    quotes; splitting the written line and stripping quotes gives the field
    back exactly, comma included, as the single cell at its position, next
    to the other fields of the line. *)
Theorem quoted_field_round_trip (before after : list string) (field : string) :
  contains comma field = true ->
  Forall (fun x => contains quote x = false) (before ++ field :: after) ->
  let line := write_line (before ++ field :: after) in
  write_field field = quoted field /\
  parseCSVLine (quoted field) = [field] /\
  cell (parseCSVLine (quoted field)) 0 = field /\
  parseCSVLine line = (before ++ field :: after)%list /\
  cell (parseCSVLine line) (List.length before) = field.
Proof.
  intros Hc HF line.
  assert (Hf : contains quote field = false).
  { rewrite Forall_forall in HF. apply HF. apply in_or_app. right. now left. }
  assert (Hw : write_field field = quoted field) by (unfold write_field; now rewrite Hc).
  assert (Hl : parseCSVLine line = (before ++ field :: after)%list).
  { apply parseCSVLine_write_line; [now destruct before | exact HF]. }
  assert (Hs : parseCSVLine (quoted field) = [field]).
  { rewrite <- Hw. change (write_field field) with (write_line [field]).
    apply parseCSVLine_write_line; [discriminate | now constructor]. }
  repeat split; trivial.
  - unfold cell. rewrite Hs. simpl. now apply remove_quotes_quote_free.
  - unfold cell. rewrite Hl, nth_error_app2, Nat.sub_diag by lia. simpl.
    now apply remove_quotes_quote_free.
Qed.

Lemma quoted_field_round_trip_witness :
  cell (parseCSVLine (write_line ["892"; "3"; "Kelly, Mr. James"; "male"])) 2
  = "Kelly, Mr. James".
Proof.
  apply (quoted_field_round_trip ["892"; "3"] ["male"] "Kelly, Mr. James").
  - reflexivity.
  - repeat constructor.
Defined.

(** ** The reader *)

Lemma trimEnd_all_space (t : string) : all_space t = true -> trimEnd t = EmptyString.
Proof.
  unfold all_space. induction t as [|c t IH]; simpl; [reflexivity |].
  intros H. apply andb_prop in H as [Hc Ht]. now rewrite IH, Hc.
Qed.

Lemma ends_nonspace_not_empty (s : string) : ends_nonspace s = true -> s <> EmptyString.
Proof. destruct s; [discriminate | congruence]. Qed.

(** [trimEnd] removes a blank tail after a text that ends in a character
    that is not white space, and nothing more. *)
Lemma trimEnd_blank_tail (s t : string) :
  ends_nonspace s = true -> all_space t = true -> trimEnd (s ++ t) = s.
Proof.
  intros Hs Ht. induction s as [|c s IH]; [discriminate |].
  destruct s as [|d s].
  - simpl in *. rewrite (trimEnd_all_space t Ht).
    now destruct (is_space c).
  - change (ends_nonspace (String c (String d s))) with (ends_nonspace (String d s)) in Hs.
    specialize (IH Hs). change ((String c (String d s)) ++ t) with (String c (String d s ++ t)).
    cbn [trimEnd]. rewrite IH. reflexivity.
Qed.

Lemma ends_nonspace_app (a b : string) :
  ends_nonspace b = true -> ends_nonspace (a ++ b) = true.
Proof.
  intros Hb. induction a as [|c a IH]; [exact Hb |].
  simpl. destruct (a ++ b) eqn:E; [| exact IH].
  destruct a; simpl in E; [subst b; discriminate | discriminate].
Qed.

Lemma join_cons (sep : ascii) (l l' : string) (ls : list string) :
  join sep (l :: l' :: ls) = l ++ String sep (join sep (l' :: ls)).
Proof. reflexivity. Qed.

Lemma ends_nonspace_join (l : string) (ls : list string) :
  ends_nonspace (last (l :: ls) EmptyString) = true ->
  ends_nonspace (join newline (l :: ls)) = true.
Proof.
  revert l. induction ls as [|l' ls IH]; intros l H; [exact H |].
  rewrite join_cons. apply ends_nonspace_app.
  change (String newline (join newline (l' :: ls)))
    with (String newline EmptyString ++ join newline (l' :: ls)).
  apply ends_nonspace_app. apply IH. exact H.
Qed.

Lemma split_no_sep (sep : ascii) (l : string) :
  contains sep l = false -> split sep l = [l].
Proof.
  induction l as [|c l IH]; [reflexivity |].
  rewrite contains_cons. intros H. apply orb_false_elim in H as [Hc Hl].
  simpl. rewrite Hc, (IH Hl). reflexivity.
Qed.

Lemma split_app_sep (sep : ascii) (l rest : string) :
  contains sep l = false ->
  split sep (l ++ String sep rest) = l :: split sep rest.
Proof.
  induction l as [|c l IH].
  - intros _. simpl. now rewrite Ascii.eqb_refl.
  - rewrite contains_cons. intros H. apply orb_false_elim in H as [Hc Hl].
    simpl. rewrite Hc, (IH Hl). reflexivity.
Qed.

(** [split] undoes [join] on lines that hold no separator. *)
Lemma split_join (sep : ascii) (l : string) (ls : list string) :
  Forall (fun x => contains sep x = false) (l :: ls) ->
  split sep (join sep (l :: ls)) = l :: ls.
Proof.
  revert l. induction ls as [|l' ls IH]; intros l H.
  - simpl. apply split_no_sep. now inversion H.
  - inversion H as [|? ? Hl H']; subst.
    rewrite join_cons, split_app_sep by assumption. now rewrite IH.
Qed.

Lemma trim_file (header : string) (rows : list string) (trailer : string) :
  starts_nonspace header = true ->
  ends_nonspace (last (header :: rows) EmptyString) = true ->
  all_space trailer = true ->
  trim (join newline (header :: rows) ++ trailer) = join newline (header :: rows).
Proof.
  intros Hh Hl Ht. unfold trim.
  assert (Hs : trimStart (join newline (header :: rows) ++ trailer)
               = join newline (header :: rows) ++ trailer).
  { destruct header as [|c h]; [discriminate |]. simpl in Hh.
    destruct rows as [|r rows]; simpl; now rewrite (negb_true_iff _) in Hh; rewrite Hh. }
  rewrite Hs. apply trimEnd_blank_tail; [| exact Ht].
  now apply ends_nonspace_join.
Qed.

Section Reader.

Variable parseInt parseFloat : string -> float.

(** C6: for a text made of a header line and data rows joined by line
    feeds, possibly followed by blank space, where no line holds a line feed,
    the header starts and the last line ends with a character that is not
    white space: [parseCSV] returns one record per row, in the order of the
    rows, each built from its own line with the header's columns; so the
    number of records is the number of lines minus one. *)
Theorem parseCSV_one_record_per_row (header : string) (rows : list string)
    (trailer : string) :
  Forall (fun l => contains newline l = false) (header :: rows) ->
  starts_nonspace header = true ->
  ends_nonspace (last (header :: rows) EmptyString) = true ->
  all_space trailer = true ->
  let csvText := join newline (header :: rows) ++ trailer in
  parseCSV parseInt parseFloat csvText
  = map (parse_row parseInt parseFloat (split comma header)) rows /\
  List.length (parseCSV parseInt parseFloat csvText)
  = (List.length (header :: rows) - 1)%nat /\
  (forall i row, nth_error rows i = Some row ->
     nth_error (parseCSV parseInt parseFloat csvText) i
     = Some (parse_row parseInt parseFloat (split comma header) row)).
Proof.
  intros Hn Hh Hl Ht csvText.
  assert (E : parseCSV parseInt parseFloat csvText
              = map (parse_row parseInt parseFloat (split comma header)) rows).
  { unfold parseCSV, csvText. rewrite trim_file by assumption.
    rewrite split_join by assumption. reflexivity. }
  rewrite E. repeat split.
  - rewrite length_map. simpl. lia.
  - intros i row Hi. now rewrite nth_error_map, Hi.
Qed.

End Reader.

Lemma parseCSV_one_record_per_row_witness :
  List.length (parseCSV Host.parseInt Host.parseFloat sample_csv) = 2%nat.
Proof.
  apply (parseCSV_one_record_per_row Host.parseInt Host.parseFloat
           sample_header sample_rows (String newline EmptyString)).
  - repeat constructor.
  - reflexivity.
  - reflexivity.
  - reflexivity.
Defined.

Close Scope string_scope.

(** ** Binary64 arithmetic on counts *)

Module Binary64.

Local Open Scope Z_scope.

Lemma digits2_pos_size (p : positive) : digits2_pos p = Pos.size p.
Proof. induction p as [p IH|p IH|]; simpl; congruence. Qed.

Lemma digits2_pos_bounds (p : positive) :
  2 ^ (Zpos (digits2_pos p) - 1) <= Zpos p < 2 ^ Zpos (digits2_pos p).
Proof.
  rewrite digits2_pos_size.
  pose proof (Pos.size_gt p) as Hgt. pose proof (Pos.size_le p) as Hle.
  apply Pos2Z.pos_lt_pos in Hgt. apply Pos2Z.pos_le_pos in Hle.
  rewrite Pos2Z.inj_pow in Hgt, Hle.
  replace (Zpos (Pos.size p)) with (Z.succ (Zpos (Pos.size p) - 1)) in Hle at 1 by lia.
  rewrite Z.pow_succ_r in Hle by lia.
  change (Zpos p~0) with (2 * Zpos p) in Hle. lia.
Qed.

Lemma digits2_pos_unique (p : positive) (k : Z) :
  2 ^ (k - 1) <= Zpos p < 2 ^ k -> Zpos (digits2_pos p) = k.
Proof.
  intros [Hlo Hhi]. pose proof (digits2_pos_bounds p) as [Dlo Dhi].
  assert (0 < k).
  { destruct (Z.ltb_spec 0 k); [assumption |].
    assert (2 ^ k <= 1); [| lia].
    destruct (Z.eq_dec k 0) as [->|]; [simpl; lia |].
    rewrite Z.pow_neg_r by lia. lia. }
  assert (Zpos (digits2_pos p) - 1 < k).
  { apply (Z.pow_lt_mono_r_iff 2); lia. }
  assert (k - 1 < Zpos (digits2_pos p)).
  { apply (Z.pow_lt_mono_r_iff 2); lia. }
  lia.
Qed.

(** Shifting right: the mantissa is halved, rounding down. *)
Lemma shr_1_m (mrs : shr_record) :
  0 <= shr_m mrs -> shr_m (shr_1 mrs) = shr_m mrs / 2.
Proof.
  destruct mrs as [m r s]. simpl. intros Hm.
  destruct m as [|[p|p|]|p]; cbn [shr_1 shr_m]; try reflexivity; try lia.
  - apply Z.div_unique with (r := 1); lia.
  - apply Z.div_unique with (r := 0); lia.
Qed.

Lemma shr_1_exact (mrs : shr_record) :
  0 <= shr_m mrs -> (2 | shr_m mrs) -> exact_record mrs ->
  exact_record (shr_1 mrs).
Proof.
  destruct mrs as [m r s]. unfold exact_record. simpl. intros Hm [q Hq] [-> ->].
  destruct m as [|[p|p|]|p]; simpl; auto; lia.
Qed.

Lemma divide_pow_split (m a b : Z) :
  0 <= a -> 0 <= b -> (2 ^ (a + b) | m) -> (2 ^ a | m) /\ (2 ^ b | m / 2 ^ a).
Proof.
  intros Ha Hb [q Hq]. rewrite Z.pow_add_r in Hq by assumption.
  assert (0 < 2 ^ a) by (apply Z.pow_pos_nonneg; lia).
  split.
  - exists (q * 2 ^ b). lia.
  - exists q. replace m with (q * 2 ^ b * 2 ^ a) by lia.
    rewrite Z.div_mul by lia. reflexivity.
Qed.

Lemma iter_shr_1 (k : positive) (mrs : shr_record) :
  0 <= shr_m mrs ->
  shr_m (SpecFloat.iter_pos shr_1 k mrs) = shr_m mrs / 2 ^ Zpos k /\
  ((2 ^ Zpos k | shr_m mrs) -> exact_record mrs ->
   exact_record (SpecFloat.iter_pos shr_1 k mrs)).
Proof.
  revert mrs. induction k as [k IH|k IH|]; intros mrs Hm.
  - (* 2k+1 *)
    simpl SpecFloat.iter_pos.
    assert (H1 : 0 <= shr_m (shr_1 mrs))
      by (rewrite shr_1_m by assumption; apply Z.div_pos; lia).
    destruct (IH (shr_1 mrs) H1) as [E1 X1].
    assert (H2 : 0 <= shr_m (SpecFloat.iter_pos shr_1 k (shr_1 mrs))).
    { rewrite E1. apply Z.div_pos; [assumption | apply Z.pow_pos_nonneg; lia]. }
    destruct (IH _ H2) as [E2 X2].
    assert (P : 0 < 2 ^ Zpos k) by (apply Z.pow_pos_nonneg; lia).
    split.
    + rewrite E2, E1, shr_1_m by assumption.
      rewrite !Z.div_div by lia. f_equal.
      replace (Zpos k~1) with (1 + (Zpos k + Zpos k)) by lia.
      rewrite !Z.pow_add_r by lia. lia.
    + intros D X.
      replace (Zpos k~1) with (1 + (Zpos k + Zpos k)) in D by lia.
      apply divide_pow_split in D as [D1 D]; [| lia | lia].
      apply divide_pow_split in D as [D2 D3]; [| lia | lia].
      change (2 ^ 1) with 2 in *.
      apply X2; [now rewrite E1, shr_1_m by assumption |].
      apply X1; [now rewrite shr_1_m by assumption |].
      now apply shr_1_exact.
  - (* 2k *)
    simpl SpecFloat.iter_pos.
    destruct (IH mrs Hm) as [E1 X1].
    assert (P : 0 < 2 ^ Zpos k) by (apply Z.pow_pos_nonneg; lia).
    assert (H2 : 0 <= shr_m (SpecFloat.iter_pos shr_1 k mrs))
      by (rewrite E1; apply Z.div_pos; lia).
    destruct (IH _ H2) as [E2 X2].
    split.
    + rewrite E2, E1, Z.div_div by lia. f_equal.
      replace (Zpos k~0) with (Zpos k + Zpos k) by lia.
      rewrite Z.pow_add_r by lia. reflexivity.
    + intros D X. replace (Zpos k~0) with (Zpos k + Zpos k) in D by lia.
      apply divide_pow_split in D as [D1 D2]; [| lia | lia].
      apply X2; [now rewrite E1 | now apply X1].
  - simpl SpecFloat.iter_pos. split.
    + now apply shr_1_m.
    + intros D X. now apply shr_1_exact.
Qed.

Lemma shr_m_of_loc (m : Z) (l : location) : shr_m (shr_record_of_loc m l) = m.
Proof. destruct l as [|[]]; reflexivity. Qed.

(** The first step of rounding: the mantissa is cut down to 53 bits. *)
Lemma shr_fexp_shape (m : positive) (e k : Z) (l : location) :
  k = Zpos (digits2_pos m) - 53 -> 0 <= k -> -1074 <= e + k ->
  exists mrs,
    shr_fexp prec emax (Zpos m) e l = (mrs, e + k) /\
    shr_m mrs = Zpos m / 2 ^ k /\
    (l = loc_Exact -> (2 ^ k | Zpos m) -> exact_record mrs).
Proof.
  intros Hk H0 He. unfold shr_fexp, fexp, emin, prec, emax. cbn [Zdigits2].
  replace (Z.max (Zpos (digits2_pos m) + e - 53) (3 - 1024 - 53) - e) with k by lia.
  destruct k as [|kp|kp]; [| | lia].
  - exists (shr_record_of_loc (Zpos m) l). cbn [shr]. rewrite Z.add_0_r.
    split; [reflexivity | split].
    + rewrite shr_m_of_loc. now rewrite Z.div_1_r.
    + intros -> _. split; reflexivity.
  - exists (SpecFloat.iter_pos shr_1 kp (shr_record_of_loc (Zpos m) l)).
    cbn [shr].
    destruct (iter_shr_1 kp (shr_record_of_loc (Zpos m) l)) as [E X].
    { rewrite shr_m_of_loc. lia. }
    rewrite shr_m_of_loc in E, X. split; [reflexivity | split; [exact E |]].
    intros -> D. apply X; [exact D | split; reflexivity].
Qed.

Lemma round_nearest_even_shape (mrs : shr_record) :
  let m := round_nearest_even (shr_m mrs) (loc_of_shr_record mrs) in
  shr_m mrs <= m <= shr_m mrs + 1 /\ (exact_record mrs -> m = shr_m mrs).
Proof.
  destruct mrs as [m r s]. unfold exact_record. cbn [shr_m shr_r shr_s].
  destruct r, s; cbn [loc_of_shr_record round_nearest_even];
    try destruct (Z.even m); split; try lia; intros [? ?]; discriminate.
Qed.

Lemma mantissa_53_bits (p : positive) (k : Z) :
  k = Zpos (digits2_pos p) - 53 -> 0 <= k ->
  2 ^ 52 <= Zpos p / 2 ^ k < 2 ^ 53.
Proof.
  intros Hk H0. pose proof (digits2_pos_bounds p) as [Lo Hi].
  assert (P : 0 < 2 ^ k) by (apply Z.pow_pos_nonneg; lia).
  replace (Zpos (digits2_pos p) - 1) with (52 + k) in Lo by lia.
  replace (Zpos (digits2_pos p)) with (53 + k) in Hi by lia.
  rewrite Z.pow_add_r in Lo, Hi by lia. split.
  - apply Z.div_le_lower_bound; lia.
  - apply Z.div_lt_upper_bound; lia.
Qed.

(** Rounding a positive mantissa of at least 53 bits, in the range of the
    normal numbers: the result keeps the leading 53 bits [t], or is the next
    double above; it is [t] itself when nothing is cut off. *)
Lemma binary_round_aux_shape (p : positive) (ex k : Z) (lx : location) :
  k = Zpos (digits2_pos p) - 53 -> 0 <= k -> -1074 <= ex + k -> ex + k < 971 ->
  exists m e,
    binary_round_aux prec emax false (Zpos p) ex lx = S754_finite false m e /\
    2 ^ 52 <= Zpos m < 2 ^ 53 /\
    ((Zpos p / 2 ^ k <= Zpos m <= Zpos p / 2 ^ k + 1 /\ e = ex + k) \/
     (Zpos m = 2 ^ 52 /\ Zpos p / 2 ^ k + 1 = 2 ^ 53 /\ e = ex + k + 1)) /\
    (lx = loc_Exact -> (2 ^ k | Zpos p) -> Zpos m = Zpos p / 2 ^ k /\ e = ex + k).
Proof.
  intros Hk H0 Hlo Hhi.
  destruct (shr_fexp_shape p ex k lx Hk H0 Hlo) as (mrs & E1 & Em & X1).
  pose proof (mantissa_53_bits p k Hk H0) as Ht.
  pose proof (round_nearest_even_shape mrs) as [Hr Xr]. cbv zeta in Hr, Xr.
  unfold binary_round_aux. rewrite E1.
  set (m2 := round_nearest_even (shr_m mrs) (loc_of_shr_record mrs)) in *.
  rewrite Em in Hr, Xr.
  destruct (Z.eq_dec m2 (2 ^ 53)) as [Hc | Hc].
  - (* the carry reaches bit 54 *)
    rewrite Hc.
    assert (E2 : shr_fexp prec emax (2 ^ 53) (ex + k) loc_Exact
                 = ({| shr_m := 2 ^ 52; shr_r := false; shr_s := false |}, ex + k + 1)).
    { unfold shr_fexp, fexp, emin, prec, emax.
      change (Zdigits2 (2 ^ 53)) with 54.
      replace (Z.max (54 + (ex + k) - 53) (3 - 1024 - 53) - (ex + k)) with 1 by lia.
      reflexivity. }
    rewrite E2. cbn [shr_m]. change (2 ^ 52) with (Zpos (2 ^ 52)%positive).
    unfold emax, prec. replace (ex + k + 1 <=? 1024 - 53) with true
      by (symmetry; apply Z.leb_le; lia).
    exists (2 ^ 52)%positive, (ex + k + 1).
    split; [reflexivity | split; [simpl; lia | split]].
    + right. split; [reflexivity | split; lia].
    + intros Hx D. specialize (Xr (X1 Hx D)). lia.
  - assert (Hm2 : 2 ^ 52 <= m2 < 2 ^ 53) by lia.
    destruct m2 as [|q|q] eqn:Eq; [simpl in Hm2; lia | | lia].
    assert (Hd : Zpos (digits2_pos q) = 53) by (apply digits2_pos_unique; exact Hm2).
    assert (E2 : shr_fexp prec emax (Zpos q) (ex + k) loc_Exact
                 = ({| shr_m := Zpos q; shr_r := false; shr_s := false |}, ex + k)).
    { unfold shr_fexp, fexp, emin, prec, emax. cbn [Zdigits2]. rewrite Hd.
      replace (Z.max (53 + (ex + k) - 53) (3 - 1024 - 53) - (ex + k)) with 0 by lia.
      reflexivity. }
    rewrite E2. cbn [shr_m]. unfold emax, prec.
    replace (ex + k <=? 1024 - 53) with true by (symmetry; apply Z.leb_le; lia).
    exists q, (ex + k).
    split; [reflexivity | split; [lia | split]].
    + left. lia.
    + intros Hx D. split; [apply (Xr (X1 Hx D)) | reflexivity].
Qed.

Lemma iter_xO (c d : positive) : Zpos (Pos.iter xO c d) = Zpos c * 2 ^ Zpos d.
Proof.
  induction d as [|d IH] using Pos.peano_ind.
  - cbn [Pos.iter]. lia.
  - rewrite Pos.iter_succ, Pos2Z.inj_xO, IH, Pos2Z.inj_succ, Z.pow_succ_r; lia.
Qed.

(** The double of a positive integer below 2^53 is that integer, its
    mantissa shifted up to 53 bits. *)
Lemma binary_normalize_shape (c : positive) :
  Zpos c < 2 ^ 53 ->
  exists m,
    binary_normalize prec emax (Zpos c) 0 false
    = S754_finite false m (Zpos (digits2_pos c) - 53) /\
    Zpos m = Zpos c * 2 ^ (53 - Zpos (digits2_pos c)) /\
    2 ^ 52 <= Zpos m < 2 ^ 53.
Proof.
  intros Hc. pose proof (digits2_pos_bounds c) as [Lo Hi].
  set (d := Zpos (digits2_pos c)) in *.
  assert (Hd : 1 <= d <= 53).
  { split; [unfold d; lia |].
    destruct (Z.le_gt_cases d 53) as [|G]; [assumption | exfalso].
    assert (2 ^ 53 <= 2 ^ (d - 1)) by (apply Z.pow_le_mono_r; lia). lia. }
  assert (Hs : exists m, shl_align c 0 (d - 53) = (m, d - 53) /\
                         Zpos m = Zpos c * 2 ^ (53 - d)).
  { unfold shl_align. rewrite Z.sub_0_r.
    destruct (d - 53) as [|n|n] eqn:En; [| lia |].
    - exists c. replace (53 - d) with 0 by lia. split; [reflexivity | lia].
    - exists (Pos.iter xO c n). split; [reflexivity |].
      rewrite iter_xO. f_equal. f_equal. lia. }
  destruct Hs as (m & Es & Em).
  assert (Hm : 2 ^ 52 <= Zpos m < 2 ^ 53).
  { assert (E52 : 2 ^ 52 = 2 ^ (d - 1) * 2 ^ (53 - d))
      by (rewrite <- Z.pow_add_r by lia; f_equal; lia).
    assert (E53 : 2 ^ 53 = 2 ^ d * 2 ^ (53 - d))
      by (rewrite <- Z.pow_add_r by lia; f_equal; lia).
    rewrite Em, E52, E53.
    assert (0 < 2 ^ (53 - d)) by (apply Z.pow_pos_nonneg; lia). nia. }
  assert (Hdm : Zpos (digits2_pos m) = 53) by (apply digits2_pos_unique; exact Hm).
  destruct (binary_round_aux_shape m (d - 53) 0 loc_Exact) as (m' & e' & E & _ & _ & X);
    try lia.
  destruct (X eq_refl) as [Xm Xe]; [apply Z.divide_1_l |].
  rewrite Z.div_1_r in Xm. injection Xm as ->.
  exists m. split; [| split; assumption].
  unfold binary_normalize, binary_round. unfold fexp at 1, emin, prec at 1 2, emax at 1.
  rewrite Z.add_0_r. fold d.
  replace (Z.max (d - 53) (3 - 1024 - 53)) with (d - 53) by lia.
  rewrite Es, E. f_equal. lia.
Qed.

Lemma new_location_zero (n : Z) : new_location n 0 = loc_Exact.
Proof.
  unfold new_location, new_location_even, new_location_odd.
  now destruct (Z.even n).
Qed.

Lemma SFdiv_core_binary_53 (m1 m2 : positive) (e1 e2 : Z) :
  2 ^ 52 <= Zpos m1 < 2 ^ 53 -> 2 ^ 52 <= Zpos m2 < 2 ^ 53 ->
  -1021 <= e1 - e2 ->
  SFdiv_core_binary prec emax (Zpos m1) e1 (Zpos m2) e2
  = (Zpos m1 * 2 ^ 53 / Zpos m2, e1 - e2 - 53,
     new_location (Zpos m2) ((Zpos m1 * 2 ^ 53) mod Zpos m2)).
Proof.
  intros H1 H2 He.
  unfold SFdiv_core_binary. cbn [Zdigits2].
  rewrite (digits2_pos_unique m1 53 H1), (digits2_pos_unique m2 53 H2).
  unfold fexp, emin, prec, emax.
  replace (Z.min (Z.max (53 + e1 - (53 + e2) - 53) (3 - 1024 - 53)) (e1 - e2))
    with (e1 - e2 - 53) by lia.
  replace (e1 - e2 - (e1 - e2 - 53)) with 53 by lia.
  cbv iota. rewrite Z.shiftl_mul_pow2 by lia.
  unfold Z.div, Z.modulo.
  now destruct (Z.div_eucl (Zpos m1 * 2 ^ 53) (Zpos m2)).
Qed.

(** The quotient of two positive doubles with 53-bit mantissas, the first
    at most the second, is at most one: it is 1 itself or has an exponent
    below that of 1. *)
Lemma SFdiv_at_most_one (m1 m2 : positive) (e1 e2 : Z) :
  2 ^ 52 <= Zpos m1 < 2 ^ 53 -> 2 ^ 52 <= Zpos m2 < 2 ^ 53 ->
  -52 <= e1 -> e2 <= 0 ->
  e1 < e2 \/ (e1 = e2 /\ Zpos m1 <= Zpos m2) ->
  exists m e,
    SFdiv prec emax (S754_finite false m1 e1) (S754_finite false m2 e2)
    = S754_finite false m e /\
    2 ^ 52 <= Zpos m < 2 ^ 53 /\ -106 <= e /\
    ((Zpos m = 2 ^ 52 /\ e = -52) \/ e <= -53).
Proof.
  intros H1 H2 He1 He2 Hle.
  unfold SFdiv. rewrite SFdiv_core_binary_53 by (assumption || lia).
  cbn [xorb].
  set (q := Zpos m1 * 2 ^ 53 / Zpos m2).
  assert (Hq : 2 ^ 52 <= q < 2 ^ 54).
  { unfold q. split.
    - apply Z.div_le_lower_bound; lia.
    - apply Z.div_lt_upper_bound; lia. }
  destruct q as [|qp|qp] eqn:Eq; [simpl in Hq; lia | | lia].
  pose proof (digits2_pos_bounds qp) as [Dlo Dhi].
  set (k := Zpos (digits2_pos qp) - 53).
  assert (Hk : k = 0 \/ k = 1).
  { assert (52 < Zpos (digits2_pos qp)) by (apply (Z.pow_lt_mono_r_iff 2); lia).
    assert (Zpos (digits2_pos qp) - 1 < 54) by (apply (Z.pow_lt_mono_r_iff 2); lia).
    unfold k. lia. }
  assert (Hk1 : k = 1 -> 2 ^ 53 <= Zpos qp).
  { intros K. replace (Zpos (digits2_pos qp) - 1) with 53 in Dlo by (unfold k in K; lia).
    exact Dlo. }
  destruct (binary_round_aux_shape qp (e1 - e2 - 53) k
              (new_location (Zpos m2) ((Zpos m1 * 2 ^ 53) mod Zpos m2)))
    as (m & e & E & Hm & Hshape & X); try (unfold k; lia); try lia.
  exists m, e. split; [exact E | split; [exact Hm |]].
  destruct Hle as [Hlt | [Heq Hmle]].
  - (* the exponent of the first is smaller *)
    destruct Hshape as [[_ ->] | (Hm52 & _ & ->)]; lia.
  - subst e2. destruct (Z.eq_dec (Zpos m1) (Zpos m2)) as [Hmeq | Hmne].
    + (* equal operands: the quotient is exactly one *)
      assert (Hq53 : Zpos qp = 2 ^ 53).
      { rewrite <- Eq. unfold q. rewrite Hmeq, Z.mul_comm. apply Z.div_mul. lia. }
      assert (Hr : (Zpos m1 * 2 ^ 53) mod Zpos m2 = 0).
      { rewrite Hmeq, Z.mul_comm. apply Z.mod_mul. lia. }
      rewrite Hr, new_location_zero in X.
      assert (K : k = 1).
      { assert (D : Zpos (digits2_pos qp) = 54)
          by (apply digits2_pos_unique; rewrite Hq53; simpl; lia).
        unfold k. lia. }
      destruct (X eq_refl) as [Xm Xe].
      { rewrite K, Hq53. exists (2 ^ 52). reflexivity. }
      rewrite K, Hq53 in Xm. change (2 ^ 53 / 2 ^ 1) with (2 ^ 52) in Xm. lia.
    + (* a smaller mantissa: the quotient has no 54th bit *)
      assert (Hqlt : Zpos qp < 2 ^ 53).
      { rewrite <- Eq. unfold q. apply Z.div_lt_upper_bound; lia. }
      assert (K : k = 0) by (destruct Hk as [K | K]; [exact K | specialize (Hk1 K); lia]).
      destruct Hshape as [[_ ->] | (Hm52 & _ & ->)]; lia.
Qed.

Lemma SFleb_hundred (m : positive) (e : Z) :
  e < -46 \/ (e = -46 /\ Zpos m <= 7036874417766400) ->
  SFleb (S754_finite false m e) SF_hundred = true.
Proof.
  intros H. unfold SFleb, SF_hundred, SFcompare.
  destruct (Z.compare_spec e (-46)) as [E | E | E]; [| reflexivity | lia].
  rewrite Pos.compare_cont_spec.
  destruct (Pos.compare_spec m 7036874417766400) as [C | C | C];
    [reflexivity | reflexivity |].
  apply Pos2Z.pos_lt_pos in C. lia.
Qed.

(** A hundred times a positive double that is at most one is at most a
    hundred. *)
Lemma SFmul_hundred (m : positive) (e : Z) :
  2 ^ 52 <= Zpos m < 2 ^ 53 -> -106 <= e ->
  (Zpos m = 2 ^ 52 /\ e = -52) \/ e <= -53 ->
  SFleb (S754_zero false) (SFmul prec emax (S754_finite false m e) SF_hundred) = true /\
  SFleb (SFmul prec emax (S754_finite false m e) SF_hundred) SF_hundred = true.
Proof.
  intros Hm Hlo Hone.
  set (p := (m * 7036874417766400)%positive).
  assert (Emul : SFmul prec emax (S754_finite false m e) SF_hundred
                 = binary_round_aux prec emax false (Zpos p) (e + -46) loc_Exact)
    by reflexivity.
  rewrite Emul.
  assert (Hp : Zpos p = Zpos m * 7036874417766400) by (unfold p; lia).
  assert (Hpb : 2 ^ 104 <= Zpos p < 2 ^ 106) by (rewrite Hp; simpl; lia).
  pose proof (digits2_pos_bounds p) as [Dlo Dhi].
  set (k := Zpos (digits2_pos p) - 53).
  assert (Hk : k = 52 \/ k = 53).
  { assert (104 < Zpos (digits2_pos p)) by (apply (Z.pow_lt_mono_r_iff 2); lia).
    assert (Zpos (digits2_pos p) - 1 < 106) by (apply (Z.pow_lt_mono_r_iff 2); lia).
    unfold k. lia. }
  destruct (binary_round_aux_shape p (e + -46) k loc_Exact)
    as (mf & ef & E & Hmf & Hshape & X); try (unfold k; lia); try lia.
  rewrite E. split; [reflexivity |].
  apply SFleb_hundred.
  destruct Hone as [[Hm52 He] | He].
  - (* one times a hundred is a hundred *)
    subst e. assert (K : k = 52).
    { assert (D : Zpos (digits2_pos p) = 105)
        by (apply digits2_pos_unique; rewrite Hp, Hm52; simpl; lia).
      unfold k. lia. }
    destruct (X eq_refl) as [Xm Xe].
    { rewrite K, Hp, Hm52. exists 7036874417766400. lia. }
    rewrite K, Hp, Hm52, Z.mul_comm, Z.div_mul in Xm by (simpl; lia). lia.
  - assert (Ht : k = 53 -> Zpos p / 2 ^ k + 1 <= 7036874417766400).
    { intros ->. assert (Zpos p / 2 ^ 53 < 7036874417766400); [| lia].
      apply Z.div_lt_upper_bound; [simpl; lia | rewrite Hp; lia]. }
    destruct Hshape as [[Hmf' ->] | (Hm52 & Hcarry & ->)].
    + destruct Hk as [K | K]; [lia |]. specialize (Ht K).
      destruct (Z.eq_dec e (-53)); [right | left]; lia.
    + destruct Hk as [K | K].
      * destruct (Z.eq_dec e (-53)); [right | left]; [| lia].
        split; [lia | rewrite Hm52; simpl; lia].
      * specialize (Ht K). assert (Zpos p / 2 ^ k + 1 < 2 ^ 53) by (simpl; lia). lia.
Qed.

(** The percentage [c / n * 100] computed on doubles of counts stays
    within [0,100]. *)
Lemma SF_percentage_bounds (c n : Z) :
  0 <= c <= n -> 0 < n < 2 ^ 53 ->
  let r := SFmul prec emax
             (SFdiv prec emax (binary_normalize prec emax c 0 false)
                              (binary_normalize prec emax n 0 false))
             SF_hundred in
  SFleb (S754_zero false) r = true /\ SFleb r SF_hundred = true.
Proof.
  intros Hc Hn.
  destruct n as [|np|np]; try lia.
  destruct (binary_normalize_shape np) as (m2 & E2 & Em2 & Hm2); [lia |].
  destruct c as [|cp|cp]; try lia.
  - cbv zeta. rewrite E2. split; reflexivity.
  - destruct (binary_normalize_shape cp) as (m1 & E1 & Em1 & Hm1); [lia |].
    cbv zeta. rewrite E1, E2.
    pose proof (digits2_pos_bounds cp) as [C1 C2].
    pose proof (digits2_pos_bounds np) as [N1 N2].
    set (d1 := Zpos (digits2_pos cp)) in *. set (d2 := Zpos (digits2_pos np)) in *.
    assert (Hd1 : 1 <= d1) by (unfold d1; lia).
    assert (Hd : d1 <= d2).
    { assert (d1 - 1 < d2); [| lia]. apply (Z.pow_lt_mono_r_iff 2); lia. }
    assert (Hd2 : d2 <= 53).
    { assert (d2 - 1 < 53); [| lia]. apply (Z.pow_lt_mono_r_iff 2); lia. }
    destruct (SFdiv_at_most_one m1 m2 (d1 - 53) (d2 - 53))
      as (m & e & E & Hm & He & Hone); try assumption; try lia.
    { destruct (Z.eq_dec d1 d2) as [D | D]; [right | left; lia].
      split; [lia |]. rewrite Em1, Em2, D.
      apply Z.mul_le_mono_nonneg_r; [apply Z.pow_nonneg |]; lia. }
    rewrite E. now apply SFmul_hundred.
Qed.

End Binary64.

(** ** The summary *)

(** The double of a count below 2^53 is the count itself, in normal form. *)
Lemma Prim2SF_number_of_nat (n : nat) :
  (Z.of_nat n < 2 ^ 53)%Z ->
  Prim2SF (number_of_nat n) = binary_normalize prec emax (Z.of_nat n) 0 false.
Proof.
  intros H. unfold number_of_nat.
  rewrite of_uint63_spec, Uint63.of_Z_spec, Z.mod_small; [reflexivity |].
  change Uint63.wB with (2 ^ 63)%Z. lia.
Qed.

(** [c / n * 100] on doubles, for counts [c <= n] with [n] positive. *)
Lemma percentage_bounds (c n : nat) :
  (c <= n)%nat -> (0 < n)%nat -> (Z.of_nat n < 2 ^ 53)%Z ->
  (0 <=? number_of_nat c / number_of_nat n * 100)%float = true /\
  (number_of_nat c / number_of_nat n * 100 <=? 100)%float = true.
Proof.
  intros Hc Hn Hb.
  rewrite !leb_spec, mul_spec, div_spec, !Prim2SF_number_of_nat by lia.
  change (Prim2SF 100) with SF_hundred.
  change (Prim2SF 0) with (S754_zero false).
  apply Binary64.SF_percentage_bounds; lia.
Qed.

(** The counter of the [forEach] loop counts the records whose verdict
    agrees with the label. *)
Lemma correctPredictions_count (passengers : list Passenger) :
  correctPredictions passengers = List.length (filter agrees passengers).
Proof.
  unfold correctPredictions.
  enough (G : forall n,
             fold_left (fun n p => if agrees p then S n else n) passengers n
             = (n + List.length (filter agrees passengers))%nat) by apply (G 0%nat).
  induction passengers as [|p ps IH]; intros n; simpl; [lia |].
  rewrite IH. destruct (agrees p); simpl; lia.
Qed.

Lemma correctPredictions_le (passengers : list Passenger) :
  (correctPredictions passengers <= List.length passengers)%nat.
Proof. rewrite correctPredictions_count. apply filter_length_le. Qed.

(** C8: for every non-empty sequence of records (a JavaScript array holds
    fewer than 2^32 of them), the accuracy computed by
    [calculateModelStats], the number of records on which the verdict agrees
    with the label, divided by the total and multiplied by 100 in double
    precision, lies in [0,100]. *)
Theorem accuracy_within_0_100 (passengers : list Passenger) :
  passengers <> [] ->
  (Z.of_nat (List.length passengers) < 2 ^ 32)%Z ->
  accuracy (calculateModelStats passengers)
  = (number_of_nat (List.length (filter agrees passengers))
     / number_of_nat (List.length passengers) * 100)%float /\
  (0 <=? accuracy (calculateModelStats passengers))%float = true /\
  (accuracy (calculateModelStats passengers) <=? 100)%float = true.
Proof.
  intros Hne Hlen. unfold calculateModelStats. cbn [accuracy].
  split; [now rewrite correctPredictions_count |].
  apply percentage_bounds.
  - apply correctPredictions_le.
  - destruct passengers; [congruence | simpl; lia].
  - lia.
Qed.

Lemma accuracy_within_0_100_witness :
  (0 <=? accuracy (calculateModelStats sample_passengers))%float = true /\
  (accuracy (calculateModelStats sample_passengers) <=? 100)%float = true.
Proof.
  apply (accuracy_within_0_100 sample_passengers).
  - discriminate.
  - reflexivity.
Defined.

(** The sample file read and summarised with the reference [parseInt] and
    [parseFloat]: the scorer is right on both rows. *)
Example sample_csv_summary :
  calculateModelStats (parseCSV Host.parseInt Host.parseFloat sample_csv)
  = mkStats 100%float 2 1 1.
Proof. vm_compute. reflexivity. Qed.

Example sample_passengers_summary :
  calculateModelStats sample_passengers = mkStats 50%float 2 2 0.
Proof. vm_compute. reflexivity. Qed.

(** On the empty sequence the quotient is 0 / 0. *)
Example empty_dataset_accuracy :
  accuracy (calculateModelStats []) = PrimFloat.nan.
Proof. reflexivity. Qed.

(** * Further properties *)

(** ** The scorer's decisions *)

Open Scope float_scope.

(** X1: Sex and class alone settle the verdict in three corners: a woman in
    first or second class is always predicted to survive, and a passenger
    who is not a woman and not in first or second class never is, whatever
    the age, the family and the fare. *)
Theorem verdict_settled_by_sex_and_class (passenger : Passenger) :
  (str_is (Sex passenger) "female" = true ->
   num_is (Pclass passenger) 1 = true \/ num_is (Pclass passenger) 2 = true ->
   survived (predictSurvival passenger) = true /\
   (0.6 <? probability (predictSurvival passenger)) = true) /\
  (str_is (Sex passenger) "female" = false ->
   num_is (Pclass passenger) 1 = false -> num_is (Pclass passenger) 2 = false ->
   survived (predictSurvival passenger) = false /\
   (probability (predictSurvival passenger) <? 0.4) = true).
Proof.
  unfold_rules. cbn [probability survived]. unfold gt.
  split.
  - intros Hs [Hc | Hc]; rewrite Hs; [rewrite Hc | ].
    + split_tests; vm_compute; auto.
    + destruct (num_is (Pclass passenger) 1); [| rewrite Hc];
        split_tests; vm_compute; auto.
  - intros Hs H1 H2. rewrite Hs, H1, H2. split_tests; vm_compute; auto.
Qed.

Lemma verdict_settled_by_sex_and_class_witness :
  (survived (predictSurvival wealthy_girl) = true /\
   (0.6 <? probability (predictSurvival wealthy_girl)) = true) /\
  (survived (predictSurvival (lone_man (Val 30))) = false /\
   (probability (predictSurvival (lone_man (Val 30))) <? 0.4) = true).
Proof.
  split.
  - apply (verdict_settled_by_sex_and_class wealthy_girl);
      [reflexivity | left; reflexivity].
  - apply (verdict_settled_by_sex_and_class (lone_man (Val 30))); reflexivity.
Defined.

(** X2: The scorer reads neither the label nor the identifying columns, so the
    label cannot leak into the verdict it is compared with: a record
    labelled 1 counts as correct exactly when the verdict is 'survived', a
    record labelled 0 exactly when it is not, and a record with any other
    label never counts. *)
Theorem label_does_not_leak (passenger : Passenger) (label : prop float) :
  predictSurvival (set_Survived label passenger) = predictSurvival passenger /\
  (forall id name ticket cabin,
     predictSurvival
       (set_PassengerId id (set_Name name (set_Ticket ticket (set_Cabin cabin passenger))))
     = predictSurvival passenger) /\
  agrees (set_Survived (Val 1) passenger) = survived (predictSurvival passenger) /\
  agrees (set_Survived (Val 0) passenger)
  = negb (survived (predictSurvival passenger)) /\
  (num_is label 1 = false -> num_is label 0 = false ->
   agrees (set_Survived label passenger) = false).
Proof.
  split; [reflexivity | split; [reflexivity |]].
  unfold agrees.
  change (predictSurvival (set_Survived (Val 1) passenger)) with (predictSurvival passenger).
  change (predictSurvival (set_Survived (Val 0) passenger)) with (predictSurvival passenger).
  change (predictSurvival (set_Survived label passenger)) with (predictSurvival passenger).
  cbn [Survived set_Survived].
  change (num_is (Val 1) 1) with true. change (num_is (Val 1) 0) with false.
  change (num_is (Val 0) 1) with false. change (num_is (Val 0) 0) with true.
  repeat split.
  - now destruct (survived (predictSurvival passenger)).
  - now destruct (survived (predictSurvival passenger)).
  - intros -> ->. now destruct (survived (predictSurvival passenger)).
Qed.

Lemma label_does_not_leak_witness :
  agrees (set_Survived (Val 2) wealthy_girl) = false.
Proof.
  apply (label_does_not_leak wealthy_girl (Val 2)); reflexivity.
Defined.

(** X3: The bar that shows the probability is between 0 and 100 percent wide
    for every passenger. *)
Theorem bar_width_within_0_100 (passenger : Passenger) :
  (0 <=? bar_width (predictSurvival passenger)) = true /\
  (bar_width (predictSurvival passenger) <=? 100) = true.
Proof.
  unfold bar_width. unfold_rules. cbn [probability].
  split_tests; vm_compute; auto.
Qed.

(** ** Zero and [NaN] in sums and comparisons *)

(** A double equal to 0 is one of the two zeros. *)
Lemma eqb_zero_cases (x : float) :
  PrimFloat.eqb x 0 = true -> x = 0 \/ x = -0.
Proof.
  rewrite FloatAxioms.eqb_spec. change (Prim2SF 0) with (S754_zero false).
  intros H. rewrite <- (SF2Prim_Prim2SF x).
  destruct (Prim2SF x) as [s|s| |s m e]; unfold SFeqb, SFcompare in H.
  - destruct s; [right | left]; reflexivity.
  - destruct s; discriminate.
  - discriminate.
  - destruct s; discriminate.
Qed.

(** Adding a zero to a double that is not zero leaves it unchanged. *)
Lemma add_zero_l (x y : float) :
  PrimFloat.eqb x 0 = true -> PrimFloat.eqb y 0 = false -> x + y = y.
Proof.
  intros Hx Hy. apply Prim2SF_inj. rewrite add_spec.
  rewrite FloatAxioms.eqb_spec in Hy. change (Prim2SF 0) with (S754_zero false) in Hy.
  destruct (eqb_zero_cases x Hx) as [-> | ->];
    [change (Prim2SF 0) with (S754_zero false)
    | change (Prim2SF (-0)) with (S754_zero true)];
    destruct (Prim2SF y) as [s|s| |s m e]; try reflexivity;
    unfold SFeqb, SFcompare in Hy; discriminate.
Qed.

Lemma add_zero_r (x y : float) :
  PrimFloat.eqb y 0 = true -> PrimFloat.eqb x 0 = false -> x + y = x.
Proof.
  intros Hy Hx. apply Prim2SF_inj. rewrite add_spec.
  rewrite FloatAxioms.eqb_spec in Hx. change (Prim2SF 0) with (S754_zero false) in Hx.
  destruct (eqb_zero_cases y Hy) as [-> | ->];
    [change (Prim2SF 0) with (S754_zero false)
    | change (Prim2SF (-0)) with (S754_zero true)];
    destruct (Prim2SF x) as [s|s| |s m e]; try reflexivity;
    unfold SFeqb, SFcompare in Hx; discriminate.
Qed.

(** A sum with a [NaN] term is [NaN], hence not equal to 0. *)
Lemma add_nan_l (y : float) : nan + y = nan.
Proof. apply Prim2SF_inj. rewrite add_spec. reflexivity. Qed.

Lemma add_nan_r (x : float) : x + nan = nan.
Proof.
  apply Prim2SF_inj. rewrite add_spec. change (Prim2SF nan) with S754_nan.
  now destruct (Prim2SF x) as [s|s| |s m e].
Qed.

(** What [x || d] returns. *)
Lemma or_num_cases (x d : float) :
  (truthy x = true /\ or_num (Val x) d = x /\
   PrimFloat.eqb x 0 = false /\ PrimFloat.is_nan x = false) \/
  (PrimFloat.eqb x 0 = true /\ or_num (Val x) d = d) \/
  (x = nan /\ or_num (Val x) d = d).
Proof.
  unfold or_num, truthy.
  destruct (PrimFloat.eqb x 0) eqn:Hz; [right; left; now split |].
  destruct (PrimFloat.is_nan x) eqn:Hn.
  - right; right. split; [now apply is_nan_eq | reflexivity].
  - left. simpl. now repeat split.
Qed.

(** ** The list of key factors against the scorer *)

(** X4: The list of key factors is computed from the form's input, the score
    from the passenger built of it.  The gender and class lines always name
    the branch the scorer took.  The age line does so for every age but
    zero: at an age of 0 the list says 'Child' while the scorer, which reads
    0 as a missing age, applies no adjustment.  When the family line says
    'Traveling alone' the family rule leaves the score unchanged. *)
Theorem key_factors_against_scorer (input : PredictionInput) :
  let passenger := passenger_of_input input in
  ((gender_factor input = "Female (higher survival rate)"%string /\
    forall s, sex_rule passenger s = s + 0.35) \/
   (gender_factor input = "Male (lower survival rate)"%string /\
    forall s, sex_rule passenger s = s - 0.25)) /\
  ((class_factor input = "1st Class (highest survival)"%string /\
    forall s, class_rule passenger s = s + 0.2) \/
   (class_factor input = "2nd Class (moderate survival)"%string /\
    forall s, class_rule passenger s = s + 0.05) \/
   (class_factor input = "3rd Class (lowest survival)"%string /\
    forall s, class_rule passenger s = s - 0.15)) /\
  (PrimFloat.eqb (age input) 0 = false ->
   (age_factor input = "Child (higher survival)"%string /\
    forall s, age_rule passenger s = s + 0.1) \/
   (age_factor input = "Elderly (lower survival)"%string /\
    forall s, age_rule passenger s = s - 0.1) \/
   (age_factor input = "Adult"%string /\
    forall s, age_rule passenger s = s)) /\
  (PrimFloat.eqb (age input) 0 = true ->
   age_factor input = "Child (higher survival)"%string /\
   forall s, age_rule passenger s = s) /\
  (family_factor input = Traveling_alone ->
   forall s, family_rule passenger s = s).
Proof.
  intros passenger. subst passenger.
  destruct input as [pc sx a ss pa fa em].
  unfold gender_factor, class_factor, age_factor, family_factor,
    passenger_of_input, sex_rule, class_rule, age_rule, family_rule, familySize.
  cbn [pclass sex age sibsp parch fare embarked Sex Pclass Age SibSp Parch
       str_is num_is].
  repeat apply conj.
  - destruct (String.eqb sx "female"); [left | right]; now split.
  - destruct (PrimFloat.eqb pc 1); [left; now split |].
    destruct (PrimFloat.eqb pc 2); right; [left | right]; now split.
  - intros Hz.
    destruct (or_num_cases a 30) as [(_ & -> & _ & _) | [(Hz' & _) | (-> & _)]].
    + destruct (lt a 16); [left; now split |].
      destruct (gt a 60); right; [left | right]; now split.
    + congruence.
    + right; right. split; reflexivity.
  - intros Hz. destruct (eqb_zero_cases a Hz) as [-> | ->]; split; reflexivity.
  - destruct (PrimFloat.eqb (ss + pa) 0) eqn:Hsum; [intros _ | discriminate].
    assert (Hfs : PrimFloat.eqb (or_num (Val ss) 0 + or_num (Val pa) 0) 0 = true).
    { destruct (or_num_cases ss 0) as [(_ & -> & Hs0 & _) | [(Hs0 & ->) | (-> & ->)]];
        destruct (or_num_cases pa 0) as [(_ & -> & Hp0 & _) | [(Hp0 & ->) | (-> & ->)]].
      - exact Hsum.
      - rewrite (add_zero_r ss pa Hp0 Hs0) in Hsum. congruence.
      - rewrite add_nan_r in Hsum. discriminate.
      - rewrite (add_zero_l ss pa Hs0 Hp0) in Hsum. congruence.
      - reflexivity.
      - reflexivity.
      - rewrite add_nan_l in Hsum. discriminate.
      - reflexivity.
      - reflexivity. }
    destruct (eqb_zero_cases _ Hfs) as [-> | ->]; intros s; reflexivity.
Qed.

(** The form at age 0, otherwise as it starts, and the form as it starts. *)
Lemma key_factors_against_scorer_witness :
  let newborn := mkInput 3 "male" 0 0 0 15 "S" in
  (age_factor newborn = "Child (higher survival)"%string /\
   (forall s, age_rule (passenger_of_input newborn) s = s) /\
   (forall s, family_rule (passenger_of_input newborn) s = s)) /\
  age_factor default_input = "Adult"%string.
Proof.
  intros newborn.
  destruct (key_factors_against_scorer newborn) as (_ & _ & _ & Hzero & Halone).
  destruct (Hzero eq_refl) as [Hlabel Hrule].
  destruct (key_factors_against_scorer default_input) as (_ & _ & Hage & _).
  split; [exact (conj Hlabel (conj Hrule (Halone eq_refl))) |].
  destruct (Hage eq_refl) as [[H _] | [[H _] | [H _]]];
    [discriminate H | discriminate H | exact H].
Defined.

(** ** Order and sum of doubles *)

Ltac compare_cases :=
  repeat match goal with
         | H : context [Z.compare ?a ?b] |- _ =>
             let C := fresh "C" in destruct (Z.compare_spec a b) as [C | C | C]
         | |- context [Z.compare ?a ?b] =>
             let C := fresh "C" in destruct (Z.compare_spec a b) as [C | C | C]
         | H : context [Pos.compare_cont Eq ?a ?b] |- _ =>
             rewrite (Pos.compare_cont_spec a b Eq) in H
         | |- context [Pos.compare_cont Eq ?a ?b] =>
             rewrite (Pos.compare_cont_spec a b Eq)
         | H : context [Pos.compare ?a ?b] |- _ =>
             let C := fresh "C" in destruct (Pos.compare_spec a b) as [C | C | C]
         | |- context [Pos.compare ?a ?b] =>
             let C := fresh "C" in destruct (Pos.compare_spec a b) as [C | C | C]
         end.

Lemma SFltb_leb_trans (x y z : spec_float) :
  SFltb x y = true -> SFleb y z = true -> SFltb x z = true.
Proof.
  unfold SFltb, SFleb, SFcompare.
  destruct x as [[]|[]| |[] mx ex], y as [[]|[]| |[] my ey], z as [[]|[]| |[] mz ez];
    try discriminate; try reflexivity; intros H1 H2;
    compare_cases; cbn [Pos.switch_Eq CompOpp] in *;
    try discriminate; try reflexivity; try lia.
Qed.

Lemma SFleb_ltb_trans (x y z : spec_float) :
  SFleb x y = true -> SFltb y z = true -> SFltb x z = true.
Proof.
  unfold SFltb, SFleb, SFcompare.
  destruct x as [[]|[]| |[] mx ex], y as [[]|[]| |[] my ey], z as [[]|[]| |[] mz ez];
    try discriminate; try reflexivity; intros H1 H2;
    compare_cases; cbn [Pos.switch_Eq CompOpp] in *;
    try discriminate; try reflexivity; try lia.
Qed.

Lemma SFadd_comm (x y : spec_float) :
  SFadd prec emax x y = SFadd prec emax y x.
Proof.
  destruct x as [[]|[]| |sx mx ex], y as [[]|[]| |sy my ey]; try reflexivity.
  unfold SFadd. rewrite (Z.min_comm ex ey). f_equal. apply Z.add_comm.
Qed.

Lemma ltb_leb_trans (a b c : float) :
  (a <? b) = true -> (b <=? c) = true -> (a <? c) = true.
Proof. rewrite !ltb_spec, leb_spec. apply SFltb_leb_trans. Qed.

Lemma leb_ltb_trans (a b c : float) :
  (a <=? b) = true -> (b <? c) = true -> (a <? c) = true.
Proof. rewrite !ltb_spec, leb_spec. apply SFleb_ltb_trans. Qed.

Lemma add_comm (a b : float) : a + b = b + a.
Proof. apply Prim2SF_inj. rewrite !add_spec. apply SFadd_comm. Qed.

Lemma or_num_truthy (x d : float) : truthy x = true -> or_num (Val x) d = x.
Proof. intros H. unfold or_num. now rewrite H. Qed.

(** ** The scorer's bands *)

(** X5: Siblings/spouses and parents/children enter the score through their
    sum only: exchanging the two counts never changes the prediction. *)
Theorem family_counts_are_interchangeable (passenger : Passenger) :
  predictSurvival (set_SibSp (Parch passenger) (set_Parch (SibSp passenger) passenger))
  = predictSurvival passenger.
Proof.
  unfold_rules.
  cbn [Sex Pclass Age SibSp Parch Fare set_SibSp set_Parch].
  now rewrite (add_comm (or_num (Parch passenger) 0) (or_num (SibSp passenger) 0)).
Qed.

(** X6: Between two fares other than 0 (and not [NaN]), the higher one never
    gives the lower probability. *)
Theorem higher_fare_never_lowers_probability (passenger : Passenger)
    (low high : float) :
  truthy low = true -> truthy high = true -> (low <=? high) = true ->
  (probability (predictSurvival (set_Fare (Val low) passenger))
   <=? probability (predictSurvival (set_Fare (Val high) passenger))) = true.
Proof.
  intros Tl Th Hle.
  assert (C1 : gt low 50 = true -> gt high 50 = true)
    by (unfold gt; intros H; exact (ltb_leb_trans _ _ _ H Hle)).
  assert (C2 : lt high 10 = true -> lt low 10 = true)
    by (unfold lt; intros H; exact (leb_ltb_trans _ _ _ Hle H)).
  unfold_rules.
  cbn [probability Sex Pclass Age SibSp Parch Fare set_Fare].
  rewrite !or_num_truthy by assumption.
  destruct (gt low 50); [rewrite (C1 eq_refl) |];
    destruct (lt high 10); try (rewrite (C2 eq_refl));
    split_tests; vm_compute; reflexivity.
Qed.

Lemma higher_fare_never_lowers_probability_witness :
  (probability (predictSurvival (set_Fare (Val 5) wealthy_girl))
   <=? probability (predictSurvival (set_Fare (Val 80) wealthy_girl))) = true.
Proof.
  apply (higher_fare_never_lowers_probability wealthy_girl 5 80); reflexivity.
Defined.

(** X7: Between two ages other than 0 (and not [NaN]), the higher one never
    gives the higher probability. *)
Theorem higher_age_never_raises_probability (passenger : Passenger)
    (young old : float) :
  truthy young = true -> truthy old = true -> (young <=? old) = true ->
  (probability (predictSurvival (set_Age (Val old) passenger))
   <=? probability (predictSurvival (set_Age (Val young) passenger))) = true.
Proof.
  intros Ty To Hle.
  assert (C1 : gt young 60 = true -> gt old 60 = true)
    by (unfold gt; intros H; exact (ltb_leb_trans _ _ _ H Hle)).
  assert (C2 : lt old 16 = true -> lt young 16 = true)
    by (unfold lt; intros H; exact (leb_ltb_trans _ _ _ Hle H)).
  unfold_rules.
  cbn [probability Sex Pclass Age SibSp Parch Fare set_Age].
  rewrite !or_num_truthy by assumption.
  destruct (gt young 60); [rewrite (C1 eq_refl) |];
    destruct (lt old 16); try (rewrite (C2 eq_refl));
    split_tests; vm_compute; reflexivity.
Qed.

Lemma higher_age_never_raises_probability_witness :
  (probability (predictSurvival (set_Age (Val 70) (lone_man Undefined)))
   <=? probability (predictSurvival (set_Age (Val 10) (lone_man Undefined)))) = true.
Proof.
  apply (higher_age_never_raises_probability (lone_man Undefined) 10 70); reflexivity.
Defined.

Close Scope float_scope.

(** ** More on the line splitter *)

Open Scope string_scope.

Lemma split_not_nil (sep : ascii) (s : string) :
  exists f fs, split sep s = f :: fs.
Proof.
  induction s as [|c s (f & fs & E)]; simpl; [now exists EmptyString, [] |].
  destruct (Ascii.eqb c sep); [now exists EmptyString, (split sep s) |].
  rewrite E. now exists (String c f), fs.
Qed.

Lemma split_length (sep : ascii) (s : string) :
  List.length (split sep s) = S (count_char sep s).
Proof.
  induction s as [|c s IH]; simpl; [reflexivity |].
  destruct (Ascii.eqb c sep); simpl; [now rewrite IH |].
  destruct (split_not_nil sep s) as (f & fs & E). rewrite E in *. exact IH.
Qed.

(** On a text without quotes the loop splits at every comma, like
    [split]. *)
Lemma line_loop_quote_free (line : string) (st : line_state) :
  contains quote line = false -> inQuotes st = false ->
  let st' := line_loop line st in
  (result st' ++ [current st'])%list
  = match split comma line with
    | f :: fs => (result st ++ (current st ++ f)%string :: fs)%list
    | [] => []
    end.
Proof.
  revert st. induction line as [|c line IH]; intros [res cur q] Hq Hst;
    simpl in Hst; subst q.
  - simpl. now rewrite append_empty_r.
  - rewrite contains_cons in Hq. apply orb_false_elim in Hq as [Hc Hl].
    cbn [line_loop split]. unfold line_step. rewrite Hc.
    cbn [inQuotes negb result current]. rewrite andb_true_r.
    destruct (split_not_nil comma line) as (f & fs & E).
    destruct (Ascii.eqb c comma).
    + cbv zeta. rewrite IH by (assumption || reflexivity). rewrite E.
      cbn [result current]. rewrite append_empty_r, <- app_assoc. reflexivity.
    + cbv zeta. rewrite IH by (assumption || reflexivity). rewrite E.
      cbn [result current]. rewrite append_assoc. reflexivity.
Qed.

(** X8: The header is cut with [split(',')], the rows with [parseCSVLine]: on
    a line without quote characters the two agree, so a row has as many
    cells as it has commas plus one, and joining the cells with commas gives
    the line back. *)
Theorem parseCSVLine_is_split_without_quotes (line : string) :
  contains quote line = false ->
  parseCSVLine line = split comma line /\
  List.length (parseCSVLine line) = S (count_char comma line) /\
  join comma (parseCSVLine line) = line.
Proof.
  intros Hq.
  assert (E : parseCSVLine line = split comma line).
  { unfold parseCSVLine.
    rewrite (line_loop_quote_free line (mkLineState [] EmptyString false) Hq eq_refl).
    destruct (split_not_nil comma line) as (f & fs & ->). reflexivity. }
  split; [exact E | split].
  - rewrite E. apply split_length.
  - rewrite E. clear E Hq. induction line as [|c line IH]; [reflexivity |].
    simpl. destruct (split_not_nil comma line) as (f & fs & E). rewrite E in *.
    destruct (Ascii.eqb_spec c comma) as [-> | Hc].
    + now rewrite join_cons, IH.
    + destruct fs as [|g fs].
      * simpl in *. now rewrite IH.
      * rewrite join_cons in *. rewrite <- IH. reflexivity.
Qed.

Lemma parseCSVLine_is_split_without_quotes_witness :
  parseCSVLine "0,3,male,,Q" = ["0"; "3"; "male"; EmptyString; "Q"].
Proof.
  destruct (parseCSVLine_is_split_without_quotes "0,3,male,,Q" eq_refl) as (E & _).
  rewrite E. reflexivity.
Defined.

Lemma join_cons_snoc (sep : ascii) (a : string) (l : list string) (x : string) :
  join sep (a :: (l ++ [x])) = a ++ String sep (join sep (l ++ [x])).
Proof. destruct l; reflexivity. Qed.

Lemma join_snoc_append (sep : ascii) (l : list string) (x y : string) :
  join sep (l ++ [(x ++ y)%string]) = join sep (l ++ [x]) ++ y.
Proof.
  induction l as [|a l IH]; [reflexivity |].
  cbn [app]. rewrite !join_cons_snoc, IH, append_assoc. reflexivity.
Qed.

Lemma join_snoc_empty (sep : ascii) (l : list string) (x : string) :
  join sep ((l ++ [x]) ++ [EmptyString])
  = join sep (l ++ [x]) ++ String sep EmptyString.
Proof.
  induction l as [|a l IH]; [reflexivity |].
  cbn [app]. rewrite !join_cons_snoc, IH, append_assoc. reflexivity.
Qed.

Lemma line_loop_join (line : string) (st : line_state) :
  let st' := line_loop line st in
  join comma (result st' ++ [current st'])
  = join comma (result st ++ [current st]) ++ remove_quotes line.
Proof.
  revert st. induction line as [|c line IH]; intros [res cur q]; cbv zeta.
  - simpl. now rewrite append_empty_r.
  - cbn [line_loop remove_quotes]. cbv zeta in IH. rewrite IH.
    unfold line_step. cbn [result current inQuotes].
    destruct (Ascii.eqb c quote) eqn:Eq; [reflexivity |].
    destruct (Ascii.eqb_spec c comma) as [-> | Hc].
    + (* a comma: inside quotes it is text, outside it ends the field *)
      destruct q; cbn [negb andb result current].
      * rewrite join_snoc_append, append_assoc. reflexivity.
      * rewrite join_snoc_empty, append_assoc. reflexivity.
    + cbn [andb result current].
      rewrite join_snoc_append, append_assoc. reflexivity.
Qed.

(** X9: [parseCSVLine] drops the quote characters and nothing else: for every
    line, balanced or not, the cells joined with commas are the line without
    its quotes. *)
Theorem parseCSVLine_loses_only_quotes (line : string) :
  join comma (parseCSVLine line) = remove_quotes line.
Proof.
  unfold parseCSVLine.
  now rewrite (line_loop_join line (mkLineState [] EmptyString false)).
Qed.

Lemma contains_app (c : ascii) (a b : string) :
  contains c (a ++ b) = (contains c a || contains c b)%bool.
Proof.
  induction a as [|x a IH]; [reflexivity |].
  change (String x a ++ b) with (String x (a ++ b)).
  now rewrite !contains_cons, IH, orb_assoc.
Qed.

Lemma line_loop_quote_free_cells (line : string) (st : line_state) :
  Forall (fun f => contains quote f = false) (result st) ->
  contains quote (current st) = false ->
  let st' := line_loop line st in
  Forall (fun f => contains quote f = false) (result st') /\
  contains quote (current st') = false.
Proof.
  revert st. induction line as [|c line IH]; intros [res cur q] Hr Hc;
    cbn [result current] in *; [now split |].
  cbn [line_loop]. apply IH; unfold line_step;
    destruct (Ascii.eqb c quote) eqn:Eq; cbn [result current inQuotes]; trivial;
    destruct (Ascii.eqb c comma && negb q)%bool; cbn [result current]; trivial.
  - apply Forall_app. split; [exact Hr | now constructor].
  - rewrite contains_app, Hc, contains_cons, Eq. reflexivity.
Qed.

(** X10: No cell that [parseCSVLine] returns holds a quote character, so the
    quote-stripping [replace] applied to each cell afterwards changes
    nothing: a cell is read as the splitter left it, and as the empty string
    past the end of the row. *)
Theorem cells_hold_no_quote (line : string) (index : nat) :
  Forall (fun f => contains quote f = false) (parseCSVLine line) /\
  cell (parseCSVLine line) index = nth index (parseCSVLine line) EmptyString /\
  ((List.length (parseCSVLine line) <= index)%nat ->
   cell (parseCSVLine line) index = EmptyString).
Proof.
  assert (F : Forall (fun f => contains quote f = false) (parseCSVLine line)).
  { unfold parseCSVLine.
    destruct (line_loop_quote_free_cells line (mkLineState [] EmptyString false))
      as [Hr Hc]; [constructor | reflexivity |].
    apply Forall_app. split; [exact Hr | now constructor]. }
  split; [exact F | split].
  - unfold cell. destruct (nth_error (parseCSVLine line) index) as [v|] eqn:E.
    + rewrite (nth_error_nth _ _ _ E). apply remove_quotes_quote_free.
      rewrite Forall_forall in F. apply F. eapply nth_error_In. exact E.
    + apply nth_error_None in E. now rewrite nth_overflow.
  - intros H. unfold cell. apply nth_error_None in H. now rewrite H.
Qed.

Lemma cells_hold_no_quote_witness :
  cell (parseCSVLine "a,b") 5 = EmptyString.
Proof.
  apply (cells_hold_no_quote "a,b" 5). simpl. lia.
Defined.

(** ** More on the reader *)

Lemma trimStart_all_space (t : string) :
  all_space t = true -> trimStart t = EmptyString.
Proof.
  unfold all_space. induction t as [|c t IH]; simpl; [reflexivity |].
  intros H. apply andb_prop in H as [Hc Ht]. now rewrite Hc, IH.
Qed.

(** Writing a column leaves the other columns as they are. *)
Lemma column_assign_other (parseInt parseFloat : string -> float)
    (h h' v : string) (p : Passenger) :
  h <> h' ->
  column h (assign parseInt parseFloat p h' v) = column h p.
Proof.
  intros Hne. unfold assign.
  repeat match goal with
         | |- context [String.eqb h' ?c] =>
             destruct (String.eqb_spec h' c) as [-> | ?];
             [apply String.eqb_neq in Hne; unfold column; rewrite Hne; reflexivity |]
         end.
  reflexivity.
Qed.

(** What is written in a column depends on the cell only. *)
Lemma column_assign_same (parseInt parseFloat : string -> float)
    (h v : string) (p q : Passenger) :
  column h (assign parseInt parseFloat p h v)
  = column h (assign parseInt parseFloat q h v).
Proof.
  unfold assign, column.
  repeat match goal with
         | |- context [String.eqb h ?c] =>
             destruct (String.eqb_spec h c) as [-> | ?]; [reflexivity |]
         end.
  reflexivity.
Qed.

Section Columns.

Variable parseInt parseFloat : string -> float.

Lemma forEach_header_absent (h : string) (headers values : list string)
    (index : nat) (p : Passenger) :
  ~ In h headers ->
  column h (forEach_header parseInt parseFloat headers values index p) = column h p.
Proof.
  revert index p. induction headers as [|h0 rest IH]; intros index p Hn;
    [reflexivity |].
  cbn [forEach_header]. rewrite IH by (intros H; apply Hn; now right).
  apply column_assign_other. intros ->. apply Hn. now left.
Qed.

Lemma forEach_header_present (h : string) (headers values : list string)
    (i index : nat) (p : Passenger) :
  NoDup headers -> nth_error headers i = Some h ->
  column h (forEach_header parseInt parseFloat headers values index p)
  = column h (assign parseInt parseFloat p h (cell values (index + i))).
Proof.
  revert i index p. induction headers as [|h0 rest IH]; intros i index p Hd Hi.
  - destruct i; discriminate.
  - inversion Hd as [|? ? Hn Hd']; subst. cbn [forEach_header].
    destruct i as [|i]; simpl in Hi.
    + injection Hi as ->. rewrite forEach_header_absent by assumption.
      now rewrite Nat.add_0_r.
    + rewrite (IH i (S index) _ Hd' Hi).
      replace (S index + i)%nat with (index + S i)%nat by lia.
      apply column_assign_same.
Qed.

(** X11: The columns are found through the header row, in whatever order the
    file lists them: when the header names are distinct, the column named at
    position [i] of the header is filled from cell [i] of the row by the
    rule of that name (an integer or 0; a number or null for an empty cell;
    the text), and a column the header does not name stays undefined. *)
Theorem parse_row_follows_header (headers : list string) (line h : string)
    (i : nat) :
  NoDup headers ->
  let record := parse_row parseInt parseFloat headers line in
  let value := cell (parseCSVLine line) i in
  (nth_error headers i = Some h ->
   column h record = column h (assign parseInt parseFloat empty_passenger h value)) /\
  (nth_error headers i = Some "Survived" ->
   Survived record = Val (or_num (Val (parseInt value)) 0)) /\
  (nth_error headers i = Some "Age" ->
   Age record = if value =? EmptyString then Null else Val (parseFloat value)) /\
  (nth_error headers i = Some "Sex" -> Sex record = Val value) /\
  (~ In h headers -> column h record = column h empty_passenger).
Proof.
  intros Hd record value.
  assert (G : forall k, nth_error headers i = Some k ->
                column k record
                = column k (assign parseInt parseFloat empty_passenger k value)).
  { intros k Hk. unfold record, parse_row.
    now rewrite (forEach_header_present k headers _ i 0 _ Hd Hk). }
  split; [apply G | split; [| split; [| split]]].
  - intros H. specialize (G _ H). cbv in G. now injection G.
  - intros H. specialize (G _ H). unfold column, assign in G.
    cbn [String.eqb Ascii.eqb Bool.eqb] in G. cbv iota in G.
    cbn [Age set_Age] in G. now injection G.
  - intros H. specialize (G _ H). unfold column, assign in G.
    cbn [String.eqb Ascii.eqb Bool.eqb] in G. cbv iota in G.
    cbn [Sex set_Sex] in G. now injection G.
  - intros Hn. unfold record, parse_row. now apply forEach_header_absent.
Qed.

End Columns.

Lemma parse_row_follows_header_witness :
  let record := parse_row Host.parseInt Host.parseFloat
                  ["Sex"; "Age"; "Survived"] "female,,1" in
  Sex record = Val "female" /\ Age record = Null /\ Survived record = Val 1%float /\
  column "Fare" record = column "Fare" empty_passenger.
Proof.
  intros record.
  assert (Hd : NoDup ["Sex"; "Age"; "Survived"]).
  { repeat constructor; simpl; intuition discriminate. }
  destruct (parse_row_follows_header Host.parseInt Host.parseFloat
              ["Sex"; "Age"; "Survived"] "female,,1" "Fare" 0 Hd)
    as (_ & _ & _ & Hsex & Habsent).
  destruct (parse_row_follows_header Host.parseInt Host.parseFloat
              ["Sex"; "Age"; "Survived"] "female,,1" "Fare" 1 Hd)
    as (_ & _ & Hage & _ & _).
  destruct (parse_row_follows_header Host.parseInt Host.parseFloat
              ["Sex"; "Age"; "Survived"] "female,,1" "Fare" 2 Hd)
    as (_ & Hsurvived & _ & _ & _).
  refine (conj (Hsex eq_refl) (conj (Hage eq_refl) (conj (Hsurvived eq_refl) (Habsent _)))).
  simpl. intuition discriminate.
Defined.

Lemma or_num_plain (x : float) : plain_number (Val (or_num (Val x) 0%float)) = true.
Proof.
  destruct (or_num_cases x 0%float) as [(_ & -> & _ & Hn) | [(_ & ->) | (_ & ->)]];
    [simpl; now rewrite Hn | reflexivity | reflexivity].
Qed.

Section Records.

Variable parseInt parseFloat : string -> float.

Lemma assign_integer_columns (p : Passenger) (header value : string) :
  forallb plain_number (integer_columns p) = true ->
  forallb plain_number (integer_columns (assign parseInt parseFloat p header value)) = true.
Proof.
  unfold integer_columns. cbn [forallb]. rewrite !andb_true_r. intros H.
  apply andb_prop in H as [H1 H]. apply andb_prop in H as [H2 H].
  apply andb_prop in H as [H3 H]. apply andb_prop in H as [H4 H5].
  unfold assign.
  repeat match goal with
         | |- context [String.eqb header ?c] => destruct (String.eqb header c)
         end;
    cbn [PassengerId Survived Pclass SibSp Parch set_PassengerId set_Survived
         set_Pclass set_SibSp set_Parch set_Age set_Fare set_Name set_Sex set_Ticket
         set_Cabin set_Embarked];
    rewrite ?or_num_plain, ?H1, ?H2, ?H3, ?H4, ?H5; reflexivity.
Qed.

Lemma forEach_header_integer_columns (headers values : list string) (index : nat)
    (p : Passenger) :
  forallb plain_number (integer_columns p) = true ->
  forallb plain_number
    (integer_columns (forEach_header parseInt parseFloat headers values index p)) = true.
Proof.
  revert index p. induction headers as [|h rest IH]; intros index p H; [exact H |].
  cbn [forEach_header]. apply IH. now apply assign_integer_columns.
Qed.

(** X12: Whatever the text, and whatever the host's [parseInt] returns for a
    cell, no record holds [NaN] or null in an integer column
    ([PassengerId], [Survived], [Pclass], [SibSp], [Parch]): the fallback
    [parseInt(value) || 0] replaces an unreadable cell by 0. *)
Theorem integer_columns_are_numbers (csvText : string) :
  Forall (fun record => forallb plain_number (integer_columns record) = true)
         (parseCSV parseInt parseFloat csvText).
Proof.
  unfold parseCSV. apply Forall_forall. intros record Hin.
  apply in_map_iff in Hin as (line & <- & _).
  unfold parse_row. now apply forEach_header_integer_columns.
Qed.

(** X13: The reader returns as many records as the trimmed text has line feeds:
    every line after the first gives a record, a blank line in the middle
    included, and a text of white space only gives none. *)
Theorem parseCSV_record_count (csvText : string) :
  List.length (parseCSV parseInt parseFloat csvText)
  = count_char newline (trim csvText) /\
  (all_space csvText = true -> parseCSV parseInt parseFloat csvText = []).
Proof.
  split.
  - unfold parseCSV. rewrite length_map.
    pose proof (split_length newline (trim csvText)) as H.
    destruct (split newline (trim csvText)); simpl in *; lia.
  - intros H. unfold parseCSV, trim. now rewrite (trimStart_all_space _ H).
Qed.

End Records.

Lemma parseCSV_record_count_witness :
  parseCSV Host.parseInt Host.parseFloat blank_text = [].
Proof.
  apply (parseCSV_record_count Host.parseInt Host.parseFloat blank_text).
  reflexivity.
Defined.

Close Scope string_scope.

(** ** More on the summary *)

(** X14: The summary splits the records in two: the survivors and the dead add
    up to the total, which is the number of records. *)
Theorem survived_and_dead_add_up (passengers : list Passenger) :
  let stats := calculateModelStats passengers in
  totalPassengers stats = List.length passengers /\
  (survivedCount stats <= totalPassengers stats)%nat /\
  (survivedCount stats + deathCount stats)%nat = totalPassengers stats.
Proof.
  unfold calculateModelStats. cbn [totalPassengers survivedCount deathCount].
  pose proof (filter_length_le (fun p => num_is (Survived p) 1) passengers).
  repeat split; lia.
Qed.

Lemma filter_length_permutation (A : Type) (f : A -> bool) (l l' : list A) :
  Permutation l l' -> List.length (filter f l) = List.length (filter f l').
Proof.
  induction 1 as [| x l l' _ IH | x y l | l l' l'' _ IH1 _ IH2]; simpl.
  - reflexivity.
  - destruct (f x); simpl; now rewrite IH.
  - destruct (f x), (f y); reflexivity.
  - now rewrite IH1.
Qed.

(** X15: The summary does not depend on the order of the records. *)
Theorem summary_ignores_order (passengers passengers' : list Passenger) :
  Permutation passengers passengers' ->
  calculateModelStats passengers = calculateModelStats passengers'.
Proof.
  intros H. unfold calculateModelStats.
  rewrite !correctPredictions_count.
  rewrite (filter_length_permutation _ agrees _ _ H).
  rewrite (filter_length_permutation _ (fun p => num_is (Survived p) 1) _ _ H).
  now rewrite (Permutation_length H).
Qed.

Lemma summary_ignores_order_witness :
  calculateModelStats sample_passengers = calculateModelStats (rev sample_passengers).
Proof.
  apply (summary_ignores_order sample_passengers (rev sample_passengers)).
  apply Permutation_rev.
Defined.

(** X16: The counts of a dataset made of two parts are the sums of the counts
    of the parts. *)
Theorem counts_add_over_append (first second : list Passenger) :
  let stats := calculateModelStats (first ++ second) in
  totalPassengers stats
  = (totalPassengers (calculateModelStats first)
     + totalPassengers (calculateModelStats second))%nat /\
  survivedCount stats
  = (survivedCount (calculateModelStats first)
     + survivedCount (calculateModelStats second))%nat /\
  deathCount stats
  = (deathCount (calculateModelStats first)
     + deathCount (calculateModelStats second))%nat /\
  correctPredictions (first ++ second)
  = (correctPredictions first + correctPredictions second)%nat.
Proof.
  unfold calculateModelStats. cbn [totalPassengers survivedCount deathCount].
  rewrite !correctPredictions_count, !filter_app, !length_app.
  pose proof (filter_length_le (fun p => num_is (Survived p) 1) first).
  pose proof (filter_length_le (fun p => num_is (Survived p) 1) second).
  repeat split; lia.
Qed.

(** X17: The accuracy is [NaN] for the empty dataset, and only for it. *)
Theorem accuracy_is_NaN_only_when_empty (passengers : list Passenger) :
  (Z.of_nat (List.length passengers) < 2 ^ 32)%Z ->
  PrimFloat.is_nan (accuracy (calculateModelStats passengers)) = true
  <-> passengers = [].
Proof.
  intros Hlen. split.
  - intros Hnan. destruct passengers as [|p ps]; [reflexivity | exfalso].
    apply is_nan_eq in Hnan.
    destruct (percentage_bounds (correctPredictions (p :: ps)) (List.length (p :: ps)))
      as [H0 _]; [apply correctPredictions_le | simpl; lia | lia |].
    unfold calculateModelStats in Hnan. cbn [accuracy] in Hnan.
    rewrite Hnan in H0. discriminate H0.
  - intros ->. reflexivity.
Qed.

Lemma accuracy_is_NaN_only_when_empty_witness :
  PrimFloat.is_nan (accuracy (calculateModelStats sample_passengers)) = true
  <-> sample_passengers = [].
Proof.
  apply (accuracy_is_NaN_only_when_empty sample_passengers). reflexivity.
Defined.

(** ** The extreme percentages *)

Module Percentage.

Import Binary64.
Local Open Scope Z_scope.

(** A double divided by itself is 1 = 2^52 * 2^-52. *)
Lemma SFdiv_self (m : positive) (e : Z) :
  2 ^ 52 <= Zpos m < 2 ^ 53 -> -52 <= e <= 0 ->
  SFdiv prec emax (S754_finite false m e) (S754_finite false m e)
  = S754_finite false (2 ^ 52)%positive (-52).
Proof.
  intros Hm He. unfold SFdiv. rewrite SFdiv_core_binary_53 by (assumption || lia).
  cbn [xorb].
  replace (Zpos m * 2 ^ 53 / Zpos m) with (2 ^ 53)
    by (rewrite Z.mul_comm, Z.div_mul; lia).
  replace ((Zpos m * 2 ^ 53) mod Zpos m) with 0
    by (rewrite Z.mul_comm, Z.mod_mul; lia).
  rewrite new_location_zero.
  change (2 ^ 53) with (Zpos (2 ^ 53)%positive).
  destruct (binary_round_aux_shape (2 ^ 53)%positive (e - e - 53) 1 loc_Exact)
    as (m' & e' & E & _ & _ & X); try reflexivity; try lia.
  rewrite E. destruct (X eq_refl) as [Xm Xe]; [now exists (2 ^ 52) |].
  change (Zpos (2 ^ 53)%positive / 2 ^ 1) with (Zpos (2 ^ 52)%positive) in Xm.
  injection Xm as ->. f_equal. lia.
Qed.

(** [n / n * 100] is exactly 100, and [0 / n * 100] exactly 0. *)
Lemma SF_percentage_full (n : Z) :
  0 < n < 2 ^ 53 ->
  SFmul prec emax
    (SFdiv prec emax (binary_normalize prec emax n 0 false)
                     (binary_normalize prec emax n 0 false)) SF_hundred
  = SF_hundred.
Proof.
  intros Hn. destruct n as [|np|np]; try lia.
  destruct (binary_normalize_shape np) as (m & E & _ & Hm); [lia |].
  rewrite E.
  pose proof (digits2_pos_bounds np) as [N1 N2].
  assert (Zpos (digits2_pos np) - 1 < 53) by (apply (Z.pow_lt_mono_r_iff 2); lia).
  rewrite SFdiv_self by (assumption || lia). reflexivity.
Qed.

Lemma SF_percentage_none (n : Z) :
  0 < n < 2 ^ 53 ->
  SFmul prec emax
    (SFdiv prec emax (binary_normalize prec emax 0 0 false)
                     (binary_normalize prec emax n 0 false)) SF_hundred
  = S754_zero false.
Proof.
  intros Hn. destruct n as [|np|np]; try lia.
  destruct (binary_normalize_shape np) as (m & E & _ & _); [lia |].
  rewrite E. reflexivity.
Qed.

(** The quotient of two doubles with 53-bit mantissas, the first below the
    second by a margin, is below one by a margin. *)
Lemma SFdiv_below_one (m1 m2 : positive) (e1 e2 : Z) :
  2 ^ 52 <= Zpos m1 < 2 ^ 53 -> 2 ^ 52 <= Zpos m2 < 2 ^ 53 ->
  -52 <= e1 -> e2 <= 0 ->
  (e1 = e2 /\ Zpos m1 + 2 ^ 21 <= Zpos m2) \/
  (e1 = e2 - 1 /\ Zpos m1 + 2 ^ 22 <= 2 * Zpos m2) \/
  e1 <= e2 - 2 ->
  exists m e,
    SFdiv prec emax (S754_finite false m1 e1) (S754_finite false m2 e2)
    = S754_finite false m e /\
    2 ^ 52 <= Zpos m < 2 ^ 53 /\ -106 <= e /\
    (e <= -54 \/ (e = -53 /\ Zpos m <= 2 ^ 53 - 2 ^ 21 + 1)).
Proof.
  intros H1 H2 He1 He2 Hgap.
  unfold SFdiv. rewrite SFdiv_core_binary_53 by (assumption || lia).
  cbn [xorb].
  set (q := Zpos m1 * 2 ^ 53 / Zpos m2).
  assert (Hq : 2 ^ 52 <= q < 2 ^ 54).
  { unfold q. split.
    - apply Z.div_le_lower_bound; lia.
    - apply Z.div_lt_upper_bound; lia. }
  assert (HqA : e1 = e2 -> Zpos m1 + 2 ^ 21 <= Zpos m2 -> q <= 2 ^ 53 - 2 ^ 21).
  { intros _ G. assert (q < 2 ^ 53 - 2 ^ 21 + 1); [| lia].
    unfold q. apply Z.div_lt_upper_bound; lia. }
  assert (HqB : Zpos m1 + 2 ^ 22 <= 2 * Zpos m2 -> q <= 2 ^ 54 - 2 ^ 22).
  { intros G. assert (q < 2 ^ 54 - 2 ^ 22 + 1); [| lia].
    unfold q. apply Z.div_lt_upper_bound; lia. }
  destruct q as [|qp|qp] eqn:Eq; [simpl in Hq; lia | | lia].
  pose proof (digits2_pos_bounds qp) as [Dlo Dhi].
  set (k := Zpos (digits2_pos qp) - 53).
  assert (Hk : k = 0 \/ k = 1).
  { assert (52 < Zpos (digits2_pos qp)) by (apply (Z.pow_lt_mono_r_iff 2); lia).
    assert (Zpos (digits2_pos qp) - 1 < 54) by (apply (Z.pow_lt_mono_r_iff 2); lia).
    unfold k. lia. }
  assert (Hk0 : k = 0 -> Zpos qp / 2 ^ k = Zpos qp) by (intros ->; apply Z.div_1_r).
  assert (Hk1 : k = 1 -> 2 ^ 53 <= Zpos qp /\ 2 * (Zpos qp / 2 ^ k) <= Zpos qp).
  { intros K. split.
    - replace (Zpos (digits2_pos qp) - 1) with 53 in Dlo by (unfold k in K; lia).
      exact Dlo.
    - rewrite K. change (2 ^ 1) with 2. apply Z.mul_div_le. lia. }
  destruct (binary_round_aux_shape qp (e1 - e2 - 53) k
              (new_location (Zpos m2) ((Zpos m1 * 2 ^ 53) mod Zpos m2)))
    as (m & e & E & Hm & Hshape & _); try (unfold k; lia); try lia.
  exists m, e. split; [exact E | split; [exact Hm |]].
  destruct Hgap as [[Heq G] | [[Heq G] | G]].
  - specialize (HqA Heq G).
    assert (K : k = 0) by (destruct Hk as [K | K]; [exact K | specialize (Hk1 K); lia]).
    specialize (Hk0 K). destruct Hshape as [[Hmm ->] | (_ & Hc & _)]; lia.
  - specialize (HqB G). destruct Hk as [K | K].
    + specialize (Hk0 K). destruct Hshape as [[Hmm ->] | (Hm52 & _ & ->)]; lia.
    + destruct (Hk1 K) as [_ Hhalf].
      destruct Hshape as [[Hmm ->] | (_ & Hc & _)]; lia.
  - destruct Hshape as [[Hmm ->] | (Hm52 & _ & ->)]; lia.
Qed.

(** A hundred times a double below one by that margin is below 100. *)
Lemma SFmul_hundred_below (m : positive) (e : Z) :
  2 ^ 52 <= Zpos m < 2 ^ 53 -> -106 <= e ->
  e <= -54 \/ (e = -53 /\ Zpos m <= 2 ^ 53 - 2 ^ 21 + 1) ->
  exists mf ef,
    SFmul prec emax (S754_finite false m e) SF_hundred = S754_finite false mf ef /\
    (ef < -46 \/ (ef = -46 /\ Zpos mf < 7036874417766400)).
Proof.
  intros Hm Hlo Hbelow.
  set (p := (m * 7036874417766400)%positive).
  assert (Emul : SFmul prec emax (S754_finite false m e) SF_hundred
                 = binary_round_aux prec emax false (Zpos p) (e + -46) loc_Exact)
    by reflexivity.
  rewrite Emul.
  assert (Hp : Zpos p = Zpos m * 7036874417766400) by (unfold p; lia).
  assert (Hpb : 2 ^ 104 <= Zpos p < 2 ^ 106) by (rewrite Hp; lia).
  pose proof (digits2_pos_bounds p) as [Dlo Dhi].
  set (k := Zpos (digits2_pos p) - 53).
  assert (Hk : k = 52 \/ k = 53).
  { assert (104 < Zpos (digits2_pos p)) by (apply (Z.pow_lt_mono_r_iff 2); lia).
    assert (Zpos (digits2_pos p) - 1 < 106) by (apply (Z.pow_lt_mono_r_iff 2); lia).
    unfold k. lia. }
  destruct (binary_round_aux_shape p (e + -46) k loc_Exact)
    as (mf & ef & E & Hmf & Hshape & _); try (unfold k; lia); try lia.
  exists mf, ef. split; [exact E |].
  assert (Ht : k = 53 -> Zpos m <= 2 ^ 53 - 2 ^ 21 + 1 ->
               Zpos p / 2 ^ k + 1 < 7036874417766400).
  { intros -> G. assert (Zpos p / 2 ^ 53 < 7036874417766400 - 1); [| lia].
    apply Z.div_lt_upper_bound; [lia | rewrite Hp; lia]. }
  destruct Hbelow as [He | [He G]].
  - destruct Hshape as [[_ ->] | (Hm52 & _ & ->)]; [left; lia |].
    destruct (Z.eq_dec (e + -46 + k + 1) (-46)); [right | left; lia].
    split; [assumption | rewrite Hm52; lia].
  - subst e. destruct Hk as [K | K].
    + destruct Hshape as [[_ ->] | (Hm52 & _ & ->)]; [left; lia | right].
      split; [lia | rewrite Hm52; lia].
    + specialize (Ht K G).
      destruct Hshape as [[Hmm ->] | (_ & Hc & _)]; [right; lia | lia].
Qed.

Lemma SFltb_hundred (m : positive) (e : Z) :
  e < -46 \/ (e = -46 /\ Zpos m < 7036874417766400) ->
  SFltb (S754_finite false m e) SF_hundred = true.
Proof.
  intros H. unfold SFltb, SF_hundred, SFcompare.
  destruct (Z.compare_spec e (-46)) as [E | E | E]; [| reflexivity | lia].
  rewrite Pos.compare_cont_spec.
  destruct (Pos.compare_spec m 7036874417766400) as [C | C | C];
    [subst m; lia | reflexivity | apply Pos2Z.pos_lt_pos in C; lia].
Qed.

(** With fewer than 2^32 records of which some are mispredicted, the
    percentage is strictly below 100; with some predicted correctly, it is
    a positive double. *)
Lemma SF_percentage_strict (c n : Z) :
  0 <= c < n -> n < 2 ^ 32 ->
  SFltb (SFmul prec emax
           (SFdiv prec emax (binary_normalize prec emax c 0 false)
                            (binary_normalize prec emax n 0 false)) SF_hundred)
        SF_hundred = true.
Proof.
  intros Hc Hn.
  destruct n as [|np|np]; try lia.
  destruct (binary_normalize_shape np) as (m2 & E2 & Em2 & Hm2); [lia |].
  destruct c as [|cp|cp]; try lia.
  - rewrite E2. reflexivity.
  - destruct (binary_normalize_shape cp) as (m1 & E1 & Em1 & Hm1); [lia |].
    rewrite E1, E2.
    pose proof (digits2_pos_bounds cp) as [C1 C2].
    pose proof (digits2_pos_bounds np) as [N1 N2].
    set (d1 := Zpos (digits2_pos cp)) in *. set (d2 := Zpos (digits2_pos np)) in *.
    assert (Hd1 : 1 <= d1) by (unfold d1; lia).
    assert (Hd : d1 <= d2).
    { assert (d1 - 1 < d2); [| lia]. apply (Z.pow_lt_mono_r_iff 2); lia. }
    assert (Hd2 : d2 <= 32).
    { assert (d2 - 1 < 32); [| lia]. apply (Z.pow_lt_mono_r_iff 2); lia. }
    assert (Gap : Zpos cp * 2 ^ (53 - d1) + 2 ^ (53 - d1) <= Zpos np * 2 ^ (53 - d1)).
    { assert (0 < 2 ^ (53 - d1)) by (apply Z.pow_pos_nonneg; lia). nia. }
    assert (P21 : 2 ^ 21 <= 2 ^ (53 - d2)) by (apply Z.pow_le_mono_r; lia).
    destruct (SFdiv_below_one m1 m2 (d1 - 53) (d2 - 53))
      as (m & e & E & Hm & He & Hbelow); try assumption; try lia.
    { destruct (Z.eq_dec d1 d2) as [D | D].
      - left. split; [lia |]. rewrite Em1, Em2. rewrite D in *. lia.
      - destruct (Z.eq_dec d1 (d2 - 1)) as [D' | D']; [right; left | right; right; lia].
        split; [lia |]. rewrite Em1, Em2.
        assert (P22 : 2 ^ 22 <= 2 ^ (53 - d1)) by (apply Z.pow_le_mono_r; lia).
        replace (2 * (Zpos np * 2 ^ (53 - d2))) with (Zpos np * 2 ^ (53 - d1)); [lia |].
        replace (53 - d1) with (Z.succ (53 - d2)) by lia.
        rewrite Z.pow_succ_r by lia. lia. }
    rewrite E.
    destruct (SFmul_hundred_below m e Hm He Hbelow) as (mf & ef & Ef & Hf).
    rewrite Ef. now apply SFltb_hundred.
Qed.

Lemma SF_percentage_positive (c n : Z) :
  0 < c <= n -> n < 2 ^ 53 ->
  exists m e,
    SFmul prec emax
      (SFdiv prec emax (binary_normalize prec emax c 0 false)
                       (binary_normalize prec emax n 0 false)) SF_hundred
    = S754_finite false m e.
Proof.
  intros Hc Hn.
  destruct n as [|np|np]; try lia. destruct c as [|cp|cp]; try lia.
  destruct (binary_normalize_shape np) as (m2 & E2 & Em2 & Hm2); [lia |].
  destruct (binary_normalize_shape cp) as (m1 & E1 & Em1 & Hm1); [lia |].
  rewrite E1, E2.
  pose proof (digits2_pos_bounds cp) as [C1 C2].
  pose proof (digits2_pos_bounds np) as [N1 N2].
  set (d1 := Zpos (digits2_pos cp)) in *. set (d2 := Zpos (digits2_pos np)) in *.
  assert (Hd1 : 1 <= d1) by (unfold d1; lia).
  assert (Hd : d1 <= d2).
  { assert (d1 - 1 < d2); [| lia]. apply (Z.pow_lt_mono_r_iff 2); lia. }
  assert (Hd2 : d2 <= 53).
  { assert (d2 - 1 < 53); [| lia]. apply (Z.pow_lt_mono_r_iff 2); lia. }
  destruct (SFdiv_at_most_one m1 m2 (d1 - 53) (d2 - 53))
    as (m & e & E & Hm & He & Hone); try assumption; try lia.
  { destruct (Z.eq_dec d1 d2) as [D | D]; [right | left; lia].
    split; [lia |]. rewrite Em1, Em2, D.
    apply Z.mul_le_mono_nonneg_r; [apply Z.pow_nonneg |]; lia. }
  rewrite E.
  set (p := (m * 7036874417766400)%positive).
  assert (Emul : SFmul prec emax (S754_finite false m e) SF_hundred
                 = binary_round_aux prec emax false (Zpos p) (e + -46) loc_Exact)
    by reflexivity.
  rewrite Emul.
  assert (Hp : Zpos p = Zpos m * 7036874417766400) by (unfold p; lia).
  assert (Hpb : 2 ^ 104 <= Zpos p < 2 ^ 106) by (rewrite Hp; lia).
  pose proof (digits2_pos_bounds p) as [Dlo Dhi].
  assert (104 < Zpos (digits2_pos p)) by (apply (Z.pow_lt_mono_r_iff 2); lia).
  assert (Zpos (digits2_pos p) - 1 < 106) by (apply (Z.pow_lt_mono_r_iff 2); lia).
  destruct (binary_round_aux_shape p (e + -46) (Zpos (digits2_pos p) - 53) loc_Exact)
    as (mf & ef & Ef & _); try lia.
  now exists mf, ef.
Qed.

End Percentage.

Lemma filter_length_all (A : Type) (f : A -> bool) (l : list A) :
  List.length (filter f l) = List.length l <-> forallb f l = true.
Proof.
  induction l as [|x l IH]; simpl; [tauto |].
  pose proof (filter_length_le f l).
  destruct (f x); simpl; [rewrite <- IH; lia | split; [lia | discriminate]].
Qed.

Lemma filter_length_none (A : Type) (f : A -> bool) (l : list A) :
  List.length (filter f l) = 0%nat <-> forallb (fun x => negb (f x)) l = true.
Proof.
  induction l as [|x l IH]; simpl; [tauto |].
  destruct (f x); simpl; [split; [lia | discriminate] | exact IH].
Qed.

Lemma Prim2SF_percentage (c n : nat) :
  (Z.of_nat c < 2 ^ 53)%Z -> (Z.of_nat n < 2 ^ 53)%Z ->
  Prim2SF (number_of_nat c / number_of_nat n * 100)%float
  = SFmul prec emax
      (SFdiv prec emax (binary_normalize prec emax (Z.of_nat c) 0 false)
                       (binary_normalize prec emax (Z.of_nat n) 0 false))
      SF_hundred.
Proof.
  intros Hc Hn. now rewrite mul_spec, div_spec, !Prim2SF_number_of_nat by lia.
Qed.

(** X18: For a non-empty dataset (of fewer than 2^32 records) the accuracy is
    exactly 100 when, and only when, the verdict agrees with the label on
    every record, and exactly 0 when, and only when, it agrees on none. *)
Theorem accuracy_extremes (passengers : list Passenger) :
  passengers <> [] ->
  (Z.of_nat (List.length passengers) < 2 ^ 32)%Z ->
  (accuracy (calculateModelStats passengers) = 100%float
   <-> forallb agrees passengers = true) /\
  (accuracy (calculateModelStats passengers) = 0%float
   <-> forallb (fun p => negb (agrees p)) passengers = true).
Proof.
  intros Hne Hlen. unfold calculateModelStats. cbn [accuracy].
  rewrite correctPredictions_count.
  pose proof (filter_length_le agrees passengers) as Hle.
  set (c := List.length (filter agrees passengers)) in *.
  set (n := List.length passengers) in *.
  assert (Hn : (0 < n)%nat) by (destruct passengers; [congruence | unfold n; simpl; lia]).
  assert (E : Prim2SF (number_of_nat c / number_of_nat n * 100)%float
              = SFmul prec emax
                  (SFdiv prec emax (binary_normalize prec emax (Z.of_nat c) 0 false)
                                   (binary_normalize prec emax (Z.of_nat n) 0 false))
                  SF_hundred) by (apply Prim2SF_percentage; lia).
  split.
  - rewrite <- filter_length_all. fold c n. split.
    + intros H. rewrite H in E. change (Prim2SF 100) with SF_hundred in E.
      destruct (Nat.eq_dec c n) as [|Hcn]; [assumption | exfalso].
      pose proof (Percentage.SF_percentage_strict (Z.of_nat c) (Z.of_nat n)) as S.
      rewrite <- E in S. discriminate S; lia.
    + intros H. apply Prim2SF_inj. rewrite E, H.
      rewrite Percentage.SF_percentage_full by lia. reflexivity.
  - rewrite <- filter_length_none. fold c. split.
    + intros H. rewrite H in E. change (Prim2SF 0) with (S754_zero false) in E.
      destruct c as [|c']; [reflexivity | exfalso].
      destruct (Percentage.SF_percentage_positive (Z.of_nat (S c')) (Z.of_nat n))
        as (m & e & F); [lia | lia |].
      rewrite F in E. discriminate E.
    + intros H. apply Prim2SF_inj. rewrite E, H. change (Z.of_nat 0) with 0%Z.
      rewrite (Percentage.SF_percentage_none (Z.of_nat n)) by lia. reflexivity.
Qed.

Lemma accuracy_extremes_witness :
  accuracy (calculateModelStats [set_Survived (Val 1%float) wealthy_girl]) = 100%float
  <-> forallb agrees [set_Survived (Val 1%float) wealthy_girl] = true.
Proof.
  apply (accuracy_extremes [set_Survived (Val 1%float) wealthy_girl]).
  - discriminate.
  - reflexivity.
Defined.

(** ** The page *)

Section Page.

Variable parseInt parseFloat : string -> float.

(** X19: Whatever happens to the page, in whatever order: the statistics shown
    are absent or are those of the records held (never stale); while the
    load has not settled there are neither records nor statistics; and a
    prediction shown is the scorer's result for some input of the form, so
    its bar is between 0 and 100 percent wide and its verdict is 'survived'
    exactly when its probability exceeds 0.5. *)
Theorem page_invariant (events : list event) :
  let st := run parseInt parseFloat events initial_state in
  (modelStats st = None \/ modelStats st = Some (calculateModelStats (data st))) /\
  (loading st = true -> data st = [] /\ modelStats st = None) /\
  (forall shown, prediction st = Some shown ->
     (exists i, shown = handlePredict i) /\
     (0 <=? bar_width shown)%float = true /\
     (bar_width shown <=? 100)%float = true /\
     survived shown = (0.5 <? probability shown)%float).
Proof.
  unfold run.
  enough (G : forall st,
             ((modelStats st = None \/ modelStats st = Some (calculateModelStats (data st))) /\
              (loading st = true -> data st = [] /\ modelStats st = None) /\
              (forall shown, prediction st = Some shown -> exists i, shown = handlePredict i)) ->
             let st' := fold_left (step parseInt parseFloat) events st in
             (modelStats st' = None \/ modelStats st' = Some (calculateModelStats (data st'))) /\
             (loading st' = true -> data st' = [] /\ modelStats st' = None) /\
             (forall shown, prediction st' = Some shown -> exists i, shown = handlePredict i)).
  { destruct (G initial_state) as (H1 & H2 & H3).
    { repeat split; try (now left); try reflexivity; discriminate. }
    split; [exact H1 | split; [exact H2 |]].
    intros shown Hs. destruct (H3 shown Hs) as [i ->].
    split; [now exists i |].
    unfold handlePredict, bar_width. unfold_rules. cbn [probability survived].
    unfold gt. split_tests; vm_compute; auto. }
  induction events as [|ev events IH]; intros st Inv; [exact Inv |].
  cbn [fold_left]. apply IH. clear IH. destruct Inv as (H1 & H2 & H3).
  destruct ev as [[csvText|] | | v | v | v | v | v | v | v];
    cbn [step loadData setInput data modelStats prediction loading];
    repeat split; trivial; try discriminate; try (now right);
    try match goal with
        | L : loading st = true |- _ => now destruct (H2 L)
        end.
  intros shown Hs. injection Hs as <-. now exists (input st).
Qed.

End Page.

Lemma page_invariant_witness :
  let st := run Host.parseInt Host.parseFloat [ChangeAge "0"%string; Predict]
                initial_state in
  (data st = [] /\ modelStats st = None) /\
  (0 <=? bar_width (handlePredict (input st)))%float = true.
Proof.
  intros st.
  destruct (page_invariant Host.parseInt Host.parseFloat
              [ChangeAge "0"%string; Predict]) as (_ & Hloading & Hshown).
  split; [exact (Hloading eq_refl) |].
  exact (proj1 (proj2 (Hshown (handlePredict (input st)) eq_refl))).
Defined.

Section Load.

Variable parseInt parseFloat : string -> float.

(** X20: The load, from fetch to statistics.  When the fetch is rejected the
    state keeps its records, statistics, prediction and input, and only
    [loading] ends.  When it delivers a valid file (a header and rows as the
    reader expects them) the records held are those of the rows, in order,
    and the statistics shown count exactly the rows: the total is the number
    of rows, and survivors and dead add up to it. *)
Theorem loadData_outcome (st : State) (header : string) (rows : list string)
    (trailer : string) :
  loadData parseInt parseFloat None st
  = mkState (data st) (modelStats st) (prediction st) false (input st) /\
  (Forall (fun l => contains newline l = false) (header :: rows) ->
   starts_nonspace header = true ->
   ends_nonspace (last (header :: rows) EmptyString) = true ->
   all_space trailer = true ->
   let st' := loadData parseInt parseFloat
                (Some (join newline (header :: rows) ++ trailer)%string) st in
   loading st' = false /\
   data st' = map (parse_row parseInt parseFloat (split comma header)) rows /\
   exists stats,
     modelStats st' = Some stats /\
     totalPassengers stats = List.length rows /\
     (survivedCount stats + deathCount stats)%nat = List.length rows).
Proof.
  split; [reflexivity |].
  intros Hn Hh Hl Ht st'.
  assert (E : data st' = map (parse_row parseInt parseFloat (split comma header)) rows).
  { unfold st', loadData, parseCSV. cbn [data].
    rewrite trim_file by assumption. rewrite split_join by assumption. reflexivity. }
  split; [reflexivity | split; [exact E |]].
  exists (calculateModelStats (data st')). split; [reflexivity |].
  unfold calculateModelStats. cbn [totalPassengers survivedCount deathCount].
  pose proof (filter_length_le (fun p => num_is (Survived p) 1) (data st')).
  rewrite E in *. rewrite length_map in *. split; lia.
Qed.

End Load.

Lemma loadData_outcome_witness :
  exists stats,
    modelStats (loadData Host.parseInt Host.parseFloat (Some sample_csv) initial_state)
    = Some stats /\
    totalPassengers stats = 2%nat /\
    (survivedCount stats + deathCount stats)%nat = 2%nat.
Proof.
  destruct (loadData_outcome Host.parseInt Host.parseFloat initial_state
              sample_header sample_rows (String newline EmptyString))
    as (_ & H).
  apply H.
  - repeat constructor.
  - reflexivity.
  - reflexivity.
  - reflexivity.
Defined.
